(** * alexia: the request pipeline of [src/handle-request.js]

    A shallow embedding of the dispatcher ([module.exports]), the
    transition check ([checkActionsAndHandle]), the handler invoker
    ([callHandler]) and the response builder ([createResponse] with its
    helpers), followed by the properties of the pipeline.

    JavaScript objects that the pipeline shares with application code and
    writes in place (session attributes, the options a handler returns, the
    attributes and the card inside these options, the normalised slots) live
    in a heap of mutable objects addressed by locations.  Objects that the
    pipeline builds and hands out without ever writing to them again (the
    response and its output speech) are records.  Application functions
    (handlers, [if] predicates) are parameters of the model: they read and
    write the heap, may throw, an [if] predicate may write to the array of
    slots it is given, and a handler may call the completion callback it
    was given, now or in a later turn of the event loop. *)

From stdpp Require Import base option list strings gmap.

Local Open Scope string_scope.
Local Open Scope list_scope.

(** ** Values, objects and the heap *)

Abbreviation loc := nat.

Inductive val : Type :=
| VUndef
| VNull
| VBool (b : bool)
| VNum (n : Z)
| VStr (s : string)
| VObj (l : loc).

#[global] Instance val_eq_dec : EqDecision val.
Proof. solve_decision. Defined.

(** JavaScript truthiness ([!x], [x ? a : b], [if (x)]). *)
Definition truthy (v : val) : bool :=
  match v with
  | VUndef | VNull => false
  | VBool b => b
  | VNum n => negb (n =? 0)%Z
  | VStr s => negb (String.eqb s "")
  | VObj _ => true
  end.

(** An object maps the names of its own properties to their values; the
    heap maps the locations in use to the objects they hold.  Prototypes
    are not in the heap: where the pipeline uses a name it does not fix
    itself ([app.intents[name]], [result[value.name]]), what
    [Object.prototype] adds to a plain object is written out. *)
Abbreviation obj := (gmap string val).
Abbreviation heap := (gmap loc obj).

(** [o[k]] on an object: a missing key reads as [undefined]. *)
Definition obj_get (o : obj) (k : string) : val := default VUndef (o !! k).

(** The object stored at a location.  A run of the program never holds a
    location outside the heap; the functions here are total: such a
    location reads as the empty object, and a write to it stores the
    object written. *)
Definition obj_at (h : heap) (l : loc) : obj := default ∅ (h !! l).

(** [{...}]: a new object gets a location that is not in use. *)
Definition heap_alloc (h : heap) (o : obj) : loc * heap :=
  let l := fresh (dom h) in (l, <[l := o]> h).

(** [l.k = v] on an object. *)
Definition heap_set (h : heap) (l : loc) (k : string) (v : val) : heap :=
  <[l := <[k := v]> (obj_at h l)]> h.

(** A property read that cannot throw: [v.k] where [v] is an object, and
    [undefined] on a primitive (none of the property names the pipeline
    reads this way, [text], [ssml], [attrs], [end], [reprompt], [card],
    [type] and [previousIntent], is defined on [Object.prototype] or on the
    prototypes of numbers, booleans or strings). *)
Definition getv (h : heap) (v : val) (k : string) : val :=
  match v with
  | VObj l => obj_get (obj_at h l) k
  | _ => VUndef
  end.

Arguments getv : simpl never.

Definition previousIntent : string := "previousIntent".

(** ** Errors *)

(** [new Error(message)]. *)
Record Error := mkError { message : string }.

(** A [parseError] that keeps the error as it is, for the examples. *)
Definition keepError (e : Error) : Error := e.

Section Pipeline.

(** [parseError] is imported from [./error-handler], which is not part of
    the sources at hand: the function and the type of what it returns are
    parameters of the development. *)
Context {PErr : Type}.
Variable parseError : Error → PErr.

(** What a [throw] carries: a value produced by [parseError], a
    [TypeError] raised by the language itself (a property of [undefined],
    a property written on a primitive in strict mode, a call of something
    that is not a function), or whatever application code throws. *)
Inductive exn : Type :=
| Parsed (e : PErr)
| TypeError
| AppError (v : val).

Inductive result (A : Type) : Type :=
| Ok (a : A)
| Throw (e : exn).
Arguments Ok {A} a.
Arguments Throw {A} e.

(** ** The request *)

(** One entry of the array [request.intent.slots]; [i_slots] is [None]
    when the request carries no slots. *)
Record Slot := { slot_name : string; slot_value : val }.

Record IntentRequest := { i_name : string; i_slots : option (list Slot) }.

Record Application := { applicationId : string }.

(** [session.attributes], when present, is a reference to an object;
    [None] stands for a request that carries none ([undefined] or
    [null]). *)
Record Session := {
  s_new : bool;
  s_attributes : option loc;
  s_application : Application
}.

Record RequestBody := { r_type : string; r_intent : option IntentRequest }.

Record Request := { session : Session; request : RequestBody }.

(** ** Application code *)

(** The arguments of a handler call: [slots] and [attrs] are values, [data]
    is the request, and an asynchronous call passes [optionsReady]. *)
Inductive arg : Type :=
| AVal (v : val)
| AData (d : Request)
| ACallback.

(** What a call of a handler does, from the heap it starts in:
    - [HReturn v h]: it returns [v], leaving the heap [h];
    - [HThrow e h]: it throws [e], leaving the heap [h];
    - [HFire o h k]: in the heap [h] it calls its fourth argument with [o],
      and goes on as [k] says from the outcome of that call and the heap
      the call leaves;
    - [HLater v h k]: it returns [v] having scheduled [k], which runs in a
      later turn of the event loop from the heap of that time. *)
Inductive hprog : Type :=
| HReturn (v : val) (h : heap)
| HThrow (e : exn) (h : heap)
| HFire (o : val) (h : heap) (k : result unit → heap → hprog)
| HLater (v : val) (h : heap) (k : heap → hprog).

(** A function used as a handler: [h_length] is its [length], the number
    of parameters it declares. *)
Record Handler := {
  h_length : nat;
  h_body : list arg → heap → hprog
}.

(** An [if] function of an action, called with [(slots, attrs)].  It is
    given the array of slots the request holds, not a copy, and may write
    to it as it may write to the heap: with the value it returns it gives
    the entries of the array as it leaves them (which nothing reads when
    the request has no slots: there is no array then). *)
Definition Pred : Type :=
  option (list Slot) → loc → heap → result (val * list Slot) * heap.

Record Action := {
  a_from : string;
  a_to : string;
  a_if : option Pred;
  a_fail : option Handler
}.

Record Intent := { intent_name : string; intent_handler : Handler }.

(** What [app.intents[name]] may give, as far as the pipeline looks at
    it: its [name] and its [handler].  An intent the application
    registered is such a value. *)
Record IntentValue := { name_of : val; handler_of : option Handler }.

Definition registered (intent : Intent) : IntentValue :=
  {| name_of := VStr (intent_name intent);
     handler_of := Some (intent_handler intent) |}.

Coercion registered : Intent >-> IntentValue.

(** [app.options]: [ids] is an array of application ids when present;
    [version] is [undefined] when the options hold none. *)
Record AppOptions := { ids : option (list string); version : val }.

(** The application, built outside this file.  [intents] holds the own
    properties of the plain object [app.intents]: the intents registered,
    by name. *)
Record App := {
  intents : gmap string Intent;
  actions : list Action;
  options : option AppOptions
}.

Record Handlers := {
  onStart : Handler;
  onEnd : Handler;
  defaultActionFail : Handler
}.

(** ** The response *)

Inductive OutputSpeech : Type :=
| PlainText (text : val)
| SSML (ssml : val).

Record ResponseBody := {
  outputSpeech : OutputSpeech;
  shouldEndSession : val;
  reprompt : option OutputSpeech;
  card : option val
}.

Record Response := {
  resp_version : val;
  sessionAttributes : val;
  response : ResponseBody
}.

(** ** The state of a run *)

(** What [optionsReady] closes over in [callHandler]. *)
Record Closure := { c_slots : loc; c_attrs : loc; c_app : App }.

(** A continuation scheduled by a handler, with the callback it holds. *)
Record Task := { t_body : heap → hprog; t_callback : option Closure }.

(** What the pipeline does to the outside: it calls an [if] function, it
    calls a handler, it calls [done].  Each event keeps the heap of its
    moment. *)
Inductive event : Type :=
| EIf (a : Action) (slots : option (list Slot)) (attrs : loc) (h : heap)
| ECall (f : Handler) (args : list arg) (h : heap)
| EDone (r : Response) (h : heap).

Record state := {
  st_heap : heap;
  st_trace : list event;
  st_pending : list Task
}.

Definition with_heap (st : state) (h : heap) : state :=
  {| st_heap := h; st_trace := st_trace st; st_pending := st_pending st |}.

(** ** A state and exception monad

    A [throw] keeps the state: what was written before it stays written. *)
Definition M (A : Type) : Type := state → result A * state.

Definition ret {A} (a : A) : M A := λ st, (Ok a, st).

Definition bind {A B} (m : M A) (f : A → M B) : M B :=
  λ st, match m st with
        | (Ok a, st') => f a st'
        | (Throw e, st') => (Throw e, st')
        end.

Definition throw {A} (e : exn) : M A := λ st, (Throw e, st).

Notation "x <- m ;; k" := (bind m (λ x, k))
  (at level 100, m at next level, right associativity).
Notation "m ;;; k" := (bind m (λ _, k))
  (at level 100, right associativity).

Definition get_heap : M heap := λ st, (Ok (st_heap st), st).

Definition put_heap (h : heap) : M unit := λ st, (Ok tt, with_heap st h).

Definition emit (e : event) : M unit :=
  λ st, (Ok tt, {| st_heap := st_heap st; st_trace := st_trace st ++ [e];
                   st_pending := st_pending st |}).

Definition defer (t : Task) : M unit :=
  λ st, (Ok tt, {| st_heap := st_heap st; st_trace := st_trace st;
                   st_pending := st_pending st ++ [t] |}).

Definition alloc (o : obj) : M loc :=
  h <- get_heap ;;
  let '(l, h') := heap_alloc h o in
  put_heap h' ;;; ret l.

(** [v.k]: a [TypeError] on [undefined] and [null]. *)
Definition getProp (v : val) (k : string) : M val :=
  match v with
  | VUndef | VNull => throw TypeError
  | _ => h <- get_heap ;; ret (getv h v k)
  end.

(** [v.k = x] under ['use strict']: a [TypeError] on anything that is
    not an object. *)
Definition setProp (v : val) (k : string) (x : val) : M unit :=
  match v with
  | VObj l => h <- get_heap ;; put_heap (heap_set h l k x)
  | _ => throw TypeError
  end.

(** ** The response builder *)

(** [createOutputSpeechObject(text, ssml)] *)
Definition createOutputSpeechObject (text ssml : val) : OutputSpeech :=
  if negb (truthy ssml) then PlainText text else SSML text.

(** [createCardObject(card)]: the default type is written on the card
    object itself; the function returns [undefined] for a falsy card. *)
Definition createCardObject (card : val) : M val :=
  if truthy card then
    t <- getProp card "type" ;;
    (if negb (truthy t) then setProp card "type" (VStr "Simple") else ret tt) ;;;
    ret card
  else ret VUndef.

(** [getShouldEndSession(options)] *)
Definition getShouldEndSession (opts : val) : M val :=
  if negb (truthy opts) then ret (VBool true)
  else
    e <- getProp opts "end" ;;
    if decide (e = VUndef) then ret (VBool true) else ret e.

(** Lines 184 to 193 of [createResponse]: the attributes of the response.
    The attributes a handler supplies are not copied: [previousIntent] is
    written on the supplied object. *)
Definition responseSessionAttributes (opts : val) (attrs : loc) : M val :=
  oattrs <- getProp opts "attrs" ;;
  if truthy oattrs then
    sessionAttributes <- getProp opts "attrs" ;;
    prev <- getProp (VObj attrs) previousIntent ;;
    setProp sessionAttributes previousIntent prev ;;;
    ret sessionAttributes
  else ret (VObj attrs).

(** [createResponse(options, slots, attrs, app)] *)
Definition createResponse (opts : val) (slots attrs : loc) (app : App) : M Response :=
  opts <- match opts with
          | VStr s => l <- alloc {[ "text" := VStr s ]} ;; ret (VObj l)
          | _ => ret opts
          end ;;
  text <- getProp opts "text" ;;
  ssml <- getProp opts "ssml" ;;
  let outputSpeech := createOutputSpeechObject text ssml in
  sessionAttributes <- responseSessionAttributes opts attrs ;;
  let version :=
    match options app with
    | Some o => version o
    | None => VStr "0.0.1"
    end in
  shouldEnd <- getShouldEndSession opts ;;
  rp <- getProp opts "reprompt" ;;
  reprompt <-
    (if truthy rp then
       rp <- getProp opts "reprompt" ;;
       ssml <- getProp opts "ssml" ;;
       ret (Some (createOutputSpeechObject rp ssml))
     else ret None) ;;
  c <- getProp opts "card" ;;
  card <- createCardObject c ;;
  ret {| resp_version := version;
         sessionAttributes := sessionAttributes;
         response := {| outputSpeech := outputSpeech;
                        shouldEndSession := shouldEnd;
                        reprompt := reprompt;
                        card := if truthy card then Some card else None |} |}.

(** ** The handler invoker *)

(** [result[k] = v] on the plain object [result]: the property is
    stored, but for ["__proto__"], which names the accessor of
    [Object.prototype]: that assignment stores no property (it replaces
    the prototype when [v] is an object or [null]). *)
Definition assign (result : obj) (k : string) (v : val) : obj :=
  if decide (k = "__proto__") then result else <[k := v]> result.

(** [_.transform(slots, (result, value) => { result[value.name] =
    value.value; }, {})]: the entries are written in order into a new
    object, and [null] or [undefined] slots give the empty object. *)
Definition transform (slots : option (list Slot)) : obj :=
  match slots with
  | Some l => foldl (λ result value, assign result (slot_name value) (slot_value value)) ∅ l
  | None => ∅
  end.

(** [done(response)]: the callback of the caller is called.  What the
    caller does with the response is not part of the pipeline: the call is
    recorded. *)
Definition done (r : Response) : M unit :=
  h <- get_heap ;; emit (EDone r h).

(** [optionsReady(options)], the closure made by [callHandler]. *)
Definition optionsReady (c : Closure) (opts : val) : M unit :=
  r <- createResponse opts (c_slots c) (c_attrs c) (c_app c) ;;
  done r.

(** The run of a handler body.  [cb] is the callback the body was given:
    calling a fourth argument that was not passed is a [TypeError]. *)
Fixpoint run (cb : option Closure) (p : hprog) (st : state) {struct p}
  : result val * state :=
  match p with
  | HReturn v h => (Ok v, with_heap st h)
  | HThrow e h => (Throw e, with_heap st h)
  | HFire o h k =>
      let '(r, st') :=
        match cb with
        | Some c => optionsReady c o (with_heap st h)
        | None => (Throw TypeError, with_heap st h)
        end in
      run cb (k r (st_heap st')) st'
  | HLater v h k =>
      (defer {| t_body := k; t_callback := cb |} ;;; ret v) (with_heap st h)
  end.

(** [handler(...args)]: the call is recorded, then the body runs. *)
Definition invoke (f : Handler) (args : list arg) (cb : option Closure) : M val :=
  h <- get_heap ;;
  emit (ECall f args h) ;;;
  run cb (h_body f args h).

(** [callHandler(handler, slots, attrs, app, data, done)] *)
Definition callHandler (f : Handler) (slots : option (list Slot)) (attrs : loc)
    (app : App) (data : Request) : M unit :=
  slots <- alloc (transform slots) ;;
  let c := {| c_slots := slots; c_attrs := attrs; c_app := app |} in
  if (h_length f <? 3)%nat then
    o <- invoke f [AVal (VObj slots); AVal (VObj attrs); AData data] None ;;
    optionsReady c o
  else
    invoke f [AVal (VObj slots); AVal (VObj attrs); AData data; ACallback] (Some c) ;;;
    ret tt.

(** One later turn of the event loop: the oldest scheduled continuation
    runs from the current heap; what it returns is dropped. *)
Definition tick : M unit :=
  λ st, match st_pending st with
        | [] => (Ok tt, st)
        | t :: ts =>
            (run (t_callback t) (t_body t (st_heap st)) ;;; ret tt)
              {| st_heap := st_heap st; st_trace := st_trace st; st_pending := ts |}
        end.

(** ** The transition check *)

(** The object predicate [{from: prev, to: to}] of [_.find]: an action
    matches when its [from] is strictly equal to [prev] and its [to] to
    [to]. *)
Definition matches (prev to : val) (a : Action) : bool :=
  bool_decide (VStr (a_from a) = prev) && bool_decide (VStr (a_to a) = to).

(** [_.find(collection, predicate)]: the first element, in order. *)
Definition _find (l : list Action) (prev to : val) : option Action :=
  List.find (matches prev to) l.

(** Lines 111 to 119: the three lookups. *)
Definition findAction (app : App) (h : heap) (attrs : loc) (intent : IntentValue)
  : option Action :=
  let action := _find (actions app) (getv h (VObj attrs) previousIntent) (name_of intent) in
  let action :=
    if action is None then _find (actions app) (getv h (VObj attrs) previousIntent) (VStr "*")
    else action in
  let action :=
    if action is None then _find (actions app) (VStr "*") (name_of intent)
    else action in
  action.

(** The array of slots once a function it was given to has left
    [entries] in it; without slots there is no array. *)
Definition leftWith (slots : option (list Slot)) (entries : list Slot)
  : option (list Slot) :=
  (λ _, entries) <$> slots.

(** [action.if(slots, attrs)]: the value returned, and the slots as the
    function left them. *)
Definition callIf (a : Action) (p : Pred) (slots : option (list Slot)) (attrs : loc)
  : M (val * option (list Slot)) :=
  h <- get_heap ;;
  emit (EIf a slots attrs h) ;;;
  λ st, match p slots attrs (st_heap st) with
        | (Ok (v, entries), h') => (Ok (v, leftWith slots entries), with_heap st h')
        | (Throw e, h') => (Throw e, with_heap st h')
        end.

(** [callHandler(intent.handler, ...)].  Of a value that has no
    [handler], [callHandler] normalises the slots (line 69) and throws on
    [handler.length] (line 78). *)
Definition callHandlerOf (f : option Handler) (slots : option (list Slot))
    (attrs : loc) (app : App) (data : Request) : M unit :=
  match f with
  | Some f => callHandler f slots attrs app data
  | None => alloc (transform slots) ;;; throw TypeError
  end.

(** [checkActionsAndHandle(intent, slots, attrs, app, handlers, data, done)].
    The handler is called with the slots as the [if] function left them:
    [slots] is one array throughout.  ([data] stands for the request
    object handed on; the record shows its slots as they arrived.) *)
Definition checkActionsAndHandle (intent : IntentValue) (slots : option (list Slot))
    (attrs : loc) (app : App) (handlers : Handlers) (data : Request) : M unit :=
  if (length (actions app) =? 0)%nat then
    setProp (VObj attrs) previousIntent (name_of intent) ;;;
    callHandlerOf (handler_of intent) slots attrs app data
  else
    h <- get_heap ;;
    match findAction app h attrs intent with
    | Some action =>
        b <- match a_if action with
             | Some p => callIf action p slots attrs
             | None => ret (VBool true, slots)
             end ;;
        let '(ok, slots) := b in
        if truthy ok then
          setProp (VObj attrs) previousIntent (name_of intent) ;;;
          callHandlerOf (handler_of intent) slots attrs app data
        else
          match a_fail action with
          | Some fail => callHandler fail slots attrs app data
          | None => callHandler (defaultActionFail handlers) slots attrs app data
          end
    | None => callHandler (defaultActionFail handlers) slots attrs app data
    end.

(** ** The dispatcher *)

(** Lines 24 to 30 of [module.exports]: the attributes of the session
    before the request is dispatched.  The function returns [data] as the
    assignment to [data.session.attributes] leaves it, together with the
    location that [data.session.attributes] then holds. *)
Definition sessionBootstrap (data : Request) : M (Request * loc) :=
  let with_attributes (l : loc) :=
    {| session := {| s_new := s_new (session data);
                     s_attributes := Some l;
                     s_application := s_application (session data) |};
       request := request data |} in
  if s_new (session data) then
    l <- alloc {[ previousIntent := VStr "@start" ]} ;;
    ret (with_attributes l, l)
  else
    match s_attributes (session data) with
    | None => l <- alloc ∅ ;; ret (with_attributes l, l)
    | Some l => ret (data, l)
    end.

(** [options && options.ids && options.ids.length > 0 &&
    options.ids.indexOf(appId) === -1] *)
Definition rejectsAppId (app : App) (appId : string) : bool :=
  match options app with
  | Some o =>
      match ids o with
      | Some l => (0 <? length l)%nat && negb (bool_decide (appId ∈ l))
      | None => false
      end
  | None => false
  end.

(** The members of [Object.prototype] that are functions named as the
    property that holds them. *)
Definition objectPrototypeFunctions : list string :=
  [ "__defineGetter__"; "__defineSetter__"; "hasOwnProperty";
    "__lookupGetter__"; "__lookupSetter__"; "isPrototypeOf";
    "propertyIsEnumerable"; "toString"; "valueOf"; "toLocaleString" ].

(** [({})[k]] for a name [k] the object does not hold itself: what
    [Object.prototype] has under [k].  [constructor] is the function
    [Object]; [__proto__] is [Object.prototype], which has no [name]; the
    others are functions; none has a [handler]. *)
Definition inheritedMember (k : string) : option IntentValue :=
  if decide (k = "constructor") then
    Some {| name_of := VStr "Object"; handler_of := None |}
  else if decide (k = "__proto__") then
    Some {| name_of := VUndef; handler_of := None |}
  else if decide (k ∈ objectPrototypeFunctions) then
    Some {| name_of := VStr k; handler_of := None |}
  else None.

(** [app.intents[name]]: the intent registered under [name], else what
    the prototype of the plain object [app.intents] gives, else
    [undefined]. *)
Definition intentsGet (app : App) (name : string) : option IntentValue :=
  match intents app !! name with
  | Some intent => Some (registered intent)
  | None => inheritedMember name
  end.

(** [module.exports(app, data, handlers, done)].  The two logging calls
    are left out.  An [IntentRequest] without [intent] fails on
    [data.request.intent.name]. *)
Definition handleRequest (app : App) (data : Request) (handlers : Handlers) : M unit :=
  let appId := applicationId (s_application (session data)) in
  if rejectsAppId app appId then
    throw (Parsed (parseError
      (mkError ("Application id: '" +:+ appId +:+ "' is not valid"))))
  else
    b <- sessionBootstrap data ;;
    let '(data, attrs) := b in
    let requestType := r_type (request data) in
    if String.eqb requestType "LaunchRequest" then
      callHandler (onStart handlers) None attrs app data
    else if String.eqb requestType "IntentRequest" then
      match r_intent (request data) with
      | None => throw TypeError
      | Some i =>
          let intentName := i_name i in
          match intentsGet app intentName with
          | None =>
              throw (Parsed (parseError
                (mkError ("Nonexistent intent: '" +:+ intentName +:+ "'"))))
          | Some intent =>
              checkActionsAndHandle intent (i_slots i) attrs app handlers data
          end
      end
    else if String.eqb requestType "SessionEndedRequest" then
      callHandler (onEnd handlers) None attrs app data
    else
      throw (Parsed (parseError
        (mkError ("Unsupported request: '" +:+ requestType +:+ "'")))).

(** ** The action lookup as the specification words it

    Three tiers tried in priority order; within a tier the first action in
    declaration order wins. *)

Inductive Tier : Type := ExactMatch | WildcardTarget | WildcardSource.

Definition tier_rank (t : Tier) : nat :=
  match t with
  | ExactMatch => 0
  | WildcardTarget => 1
  | WildcardSource => 2
  end.

Definition in_tier (prev : val) (name : string) (t : Tier) (a : Action) : Prop :=
  match t with
  | ExactMatch => VStr (a_from a) = prev ∧ a_to a = name
  | WildcardTarget => VStr (a_from a) = prev ∧ a_to a = "*"
  | WildcardSource => a_from a = "*" ∧ a_to a = name
  end.

(** [a] stands at index [i] and is the first action of tier [t]. *)
Definition first_of_tier (l : list Action) (prev : val) (name : string)
    (t : Tier) (i : nat) (a : Action) : Prop :=
  l !! i = Some a ∧ in_tier prev name t a ∧
  ∀ j b, j < i → l !! j = Some b → ¬ in_tier prev name t b.

(** [a] is the first action of the first tier that has an action. *)
Definition spec_selects (l : list Action) (prev : val) (name : string)
    (a : Action) : Prop :=
  ∃ t i, first_of_tier l prev name t i a ∧
         ∀ t' b, tier_rank t' < tier_rank t → b ∈ l → ¬ in_tier prev name t' b.

Definition spec_selects_none (l : list Action) (prev : val) (name : string) : Prop :=
  ∀ t b, b ∈ l → ¬ in_tier prev name t b.

(** How [_find] is called for each tier. *)
Definition tier_find (l : list Action) (prev : val) (name : string) (t : Tier)
  : option Action :=
  match t with
  | ExactMatch => _find l prev (VStr name)
  | WildcardTarget => _find l prev (VStr "*")
  | WildcardSource => _find l (VStr "*") (VStr name)
  end.

(** ** The validation failures *)

(** [app.options.ids] is non-empty and does not hold the application id
    of the request. *)
Definition invalidApplicationId (app : App) (data : Request) : Prop :=
  ∃ o l, options app = Some o ∧ ids o = Some l ∧ l ≠ [] ∧
         applicationId (s_application (session data)) ∉ l.

(** [request.type] is none of the three request types. *)
Definition unsupportedRequest (data : Request) : Prop :=
  r_type (request data) ≠ "LaunchRequest" ∧
  r_type (request data) ≠ "IntentRequest" ∧
  r_type (request data) ≠ "SessionEndedRequest".

(** The version a response carries. *)
Definition responseVersion (app : App) : val :=
  match options app with
  | Some o => version o
  | None => VStr "0.0.1"
  end.

(** ** What a call may write

    [unchanged_outside W st st']: from [st] to [st'] nothing was called and
    nothing scheduled, every object of [st] is still there, and a property
    [k] of an object [l] of [st] reads the same unless [W l k]. *)
Definition unchanged_outside (W : loc → string → Prop) (st st' : state) : Prop :=
  st_trace st' = st_trace st ∧
  st_pending st' = st_pending st ∧
  (∀ l, is_Some (st_heap st !! l) → is_Some (st_heap st' !! l)) ∧
  (∀ l k, is_Some (st_heap st !! l) → ¬ W l k →
          getv (st_heap st') (VObj l) k = getv (st_heap st) (VObj l) k).

(** The two properties [createResponse] writes: [previousIntent] of the
    object supplied as [options.attrs], and [type] of the object supplied
    as [options.card] when that object has no truthy [type]. *)
Definition synthesisWrites (h : heap) (opts : val) (l : loc) (k : string) : Prop :=
  (getv h opts "attrs" = VObj l ∧ k = previousIntent) ∨
  (getv h opts "card" = VObj l ∧ k = "type" ∧ truthy (getv h (VObj l) "type") = false).

(** ** Application code that keeps a property of the heap

    [respects P p]: every heap the run [p] of a handler leaves (when it
    returns, throws, calls back or schedules) satisfies [P], as long as the
    heaps it is resumed in satisfy [P]. *)
Inductive respects (P : heap → Prop) : hprog → Prop :=
| respects_return v h : P h → respects P (HReturn v h)
| respects_throw e h : P h → respects P (HThrow e h)
| respects_fire o h k :
    P h → (∀ r h', P h' → respects P (k r h')) → respects P (HFire o h k)
| respects_later v h k :
    P h → (∀ h', P h' → respects P (k h')) → respects P (HLater v h k).

Definition handler_respects (P : heap → Prop) (f : Handler) : Prop :=
  ∀ args h, P h → respects P (h_body f args h).

Definition pred_respects (P : heap → Prop) (p : Pred) : Prop :=
  ∀ slots attrs h, P h → P (p slots attrs h).2.

(** The attributes object is there and its [previousIntent] is [X]. *)
Definition previousIntentIs (attrs : loc) (X : val) (h : heap) : Prop :=
  is_Some (h !! attrs) ∧ getv h (VObj attrs) previousIntent = X.

(** A response handed to [done] carries [previousIntent = X]. *)
Definition responds_with (X : val) (e : event) : Prop :=
  match e with
  | EDone r h => getv h (sessionAttributes r) previousIntent = X
  | _ => True
  end.

(** What each response handed to [done] reads as [previousIntent] of its
    [sessionAttributes], at the moment it is handed over. *)
Definition answeredPreviousIntents (tr : list event) : list val :=
  omap (λ e, match e with
             | EDone r h => Some (getv h (sessionAttributes r) previousIntent)
             | _ => None
             end) tr.

Definition task_respects (P : heap → Prop) (attrs : loc) (t : Task) : Prop :=
  (∀ h, P h → respects P (t_body t h)) ∧
  (∀ c, t_callback t = Some c → c_attrs c = attrs).

(** [n] later turns of the event loop; a turn that throws does not stop
    the loop. *)
Fixpoint turns (n : nat) (st : state) : state :=
  match n with
  | 0 => st
  | S n => turns n (tick st).2
  end.

(** From [st] to [st']: the heap of [st'] has [previousIntent = X] on the
    attributes, every call added to the trace that hands a response to
    [done] hands one with [previousIntent = X], and what was scheduled
    keeps it so. *)
Definition extends_well (attrs : loc) (X : val) (st st' : state) : Prop :=
  previousIntentIs attrs X (st_heap st') ∧
  ∃ evs tasks,
    st_trace st' = st_trace st ++ evs ∧ Forall (responds_with X) evs ∧
    st_pending st' = st_pending st ++ tasks ∧
    Forall (task_respects (previousIntentIs attrs X) attrs) tasks.

(** The same over later turns, which take scheduled continuations away:
    the trace past [base] and all that is still scheduled. *)
Definition well_kept (attrs : loc) (X : val) (base : list event) (st : state) : Prop :=
  previousIntentIs attrs X (st_heap st) ∧
  (∃ evs, st_trace st = base ++ evs ∧ Forall (responds_with X) evs) ∧
  Forall (task_respects (previousIntentIs attrs X) attrs) (st_pending st).

(** [previousIntent] as the request brings it: ["@start"] for a new
    session, else what the attributes of the request hold. *)
Definition carriedPreviousIntent (data : Request) (h : heap) : val :=
  if s_new (session data) then VStr "@start"
  else match s_attributes (session data) with
       | Some l => getv h (VObj l) previousIntent
       | None => VUndef
       end.


(** The application's functions leave [previousIntent] of the session
    attributes alone: whatever its value, they keep it. *)
Definition keepsPreviousIntent (app : App) (handlers : Handlers) : Prop :=
  ∀ attrs X,
    let P := previousIntentIs attrs X in
    handler_respects P (onStart handlers) ∧
    handler_respects P (onEnd handlers) ∧
    handler_respects P (defaultActionFail handlers) ∧
    (∀ n i, intents app !! n = Some i → handler_respects P (intent_handler i)) ∧
    (∀ a, a ∈ actions app →
          (∀ f, a_fail a = Some f → handler_respects P f) ∧
          (∀ p, a_if a = Some p → pred_respects P p)).

(** The intent's own handler is selected: the policy is disabled, or an
    action matches and its [if], when it has one, holds. *)
Definition ownHandlerSelected (app : App) (h : heap) (slots : option (list Slot))
    (attrs : loc) (intent : Intent) : Prop :=
  actions app = [] ∨
  ∃ a, findAction app h attrs intent = Some a ∧
       (a_if a = None ∨
        ∃ p v entries h', a_if a = Some p ∧
                          p slots attrs h = (Ok (v, entries), h') ∧ truthy v = true).

(** A fallback handler is selected: there are actions, and none matches
    or the [if] of the one that matches does not hold. *)
Definition fallbackSelected (app : App) (h : heap) (slots : option (list Slot))
    (attrs : loc) (intent : Intent) : Prop :=
  actions app ≠ [] ∧
  (findAction app h attrs intent = None ∨
   ∃ a p v entries h', findAction app h attrs intent = Some a ∧ a_if a = Some p ∧
                       p slots attrs h = (Ok (v, entries), h') ∧ truthy v = false).

(** The state in which the handler is called after [action.if] ran. *)
Definition after_if (st : state) (a : Action) (slots : option (list Slot))
    (attrs : loc) (h1 : heap) : state :=
  {| st_heap := h1;
     st_trace := st_trace st ++ [EIf a slots attrs (st_heap st)];
     st_pending := st_pending st |}.

(** ** The call of a handler, named for the statements below *)

(** The location [callHandler] gives to the normalised slots. *)
Definition slotsLoc (st : state) (slots : option (list Slot)) : loc :=
  (heap_alloc (st_heap st) (transform slots)).1.

(** The heap in which the handler is called. *)
Definition callHeap (st : state) (slots : option (list Slot)) : heap :=
  (heap_alloc (st_heap st) (transform slots)).2.

(** What [optionsReady] closes over. *)
Definition closureOf (st : state) (slots : option (list Slot)) (attrs : loc)
    (app : App) : Closure :=
  {| c_slots := slotsLoc st slots; c_attrs := attrs; c_app := app |}.

(** The three arguments of a synchronous call; an asynchronous call adds
    the callback. *)
Definition syncArgs (st : state) (slots : option (list Slot)) (attrs : loc)
    (data : Request) : list arg :=
  [AVal (VObj (slotsLoc st slots)); AVal (VObj attrs); AData data].

Definition asyncArgs (st : state) (slots : option (list Slot)) (attrs : loc)
    (data : Request) : list arg :=
  syncArgs st slots attrs data ++ [ACallback].

(** The state at the entry of the handler's body. *)
Definition called (st : state) (slots : option (list Slot)) (f : Handler)
    (args : list arg) : state :=
  {| st_heap := callHeap st slots;
     st_trace := st_trace st ++ [ECall f args (callHeap st slots)];
     st_pending := st_pending st |}.

(** The responses handed to [done], in order. *)
Definition responses (tr : list event) : list Response :=
  omap (λ e, match e with EDone r _ => Some r | _ => None end) tr.

(** The handlers called, in order. *)
Definition callees (tr : list event) : list Handler :=
  omap (λ e, match e with ECall f _ _ => Some f | _ => None end) tr.

(** A value that can stand for an optional object: falsy, or an object. *)
Definition absent_or_object (v : val) : Prop :=
  truthy v = false ∨ ∃ l, v = VObj l.

(** ** The options as the response builder reads them *)

(** [options.k] once a string has become [{text: options}]: what
    [createResponse] reads for [k] from the options it was given. *)
Definition optionField (h : heap) (opts : val) (k : string) : val :=
  match opts with
  | VStr s => if decide (k = "text") then VStr s else VUndef
  | _ => getv h opts k
  end.

(** The options from which [createResponse] builds a response: they are
    not [undefined] or [null], and [attrs] and [card] are absent or
    objects. *)
Definition synthesizable (h : heap) (opts : val) : Prop :=
  opts ≠ VUndef ∧ opts ≠ VNull ∧
  absent_or_object (optionField h opts "attrs") ∧
  absent_or_object (optionField h opts "card").

(** ** What the pipeline did, read off the trace *)

Definition is_if_call (e : event) : Prop :=
  match e with EIf _ _ _ _ => True | _ => False end.

Definition is_done_call (e : event) : Prop :=
  match e with EDone _ _ => True | _ => False end.

(** The handler [f], called with [args] in the heap [hc], answers at
    once: when it is declared with fewer than three parameters and returns
    options from which a response is built, a response is handed to [done]
    right after the call, [rest] being what follows the call in the
    trace. *)
Definition answers_at_once (f : Handler) (args : list arg) (hc : heap)
    (rest : list event) : Prop :=
  ∀ o h2, (h_length f < 3)%nat → h_body f args hc = HReturn o h2 →
          synthesizable h2 o →
          ∃ resp hd rest', rest = EDone resp hd :: rest'.

(** Since the trace was [base], the pipeline has called the handler [f],
    before it nothing but [if] functions and after it nothing but [done]:
    [f] is the one handler called; when [f] was called, [previousIntent]
    of the attributes was [X]; and [f] answers at once. *)
Definition called_first (f : Handler) (attrs : loc) (X : val) (base : list event)
    (st' : state) : Prop :=
  ∃ pre args hc rest,
    st_trace st' = base ++ pre ++ ECall f args hc :: rest ∧
    Forall is_if_call pre ∧
    getv hc (VObj attrs) previousIntent = X ∧
    answers_at_once f args hc rest ∧
    Forall is_done_call rest.

(** The same, and every response handed to [done] since that call carries
    [previousIntent = X], which the attributes hold in [st']. *)
Definition handler_ran (f : Handler) (attrs : loc) (X : val) (base : list event)
    (st' : state) : Prop :=
  ∃ pre args hc rest,
    st_trace st' = base ++ pre ++ ECall f args hc :: rest ∧
    Forall is_if_call pre ∧
    getv hc (VObj attrs) previousIntent = X ∧
    answers_at_once f args hc rest ∧
    Forall is_done_call rest ∧
    Forall (responds_with X) rest ∧
    getv (st_heap st') (VObj attrs) previousIntent = X.

(** The pipeline called [f] from the heap [h1] without having written to
    it.  The call is what follows [trace], nothing but calls of [done]
    follows it, and every object of [h1] reads in the heap of the call as
    it does in [h1].  Nor does the pipeline
    write [previousIntent] of the attributes afterwards: when [f],
    declared with fewer than three parameters, returns, the attributes hold
    in [st'] the [previousIntent] it left them with; and whatever [f] does,
    if it keeps [previousIntent] as it is, the attributes hold it in [st']
    and every response handed to [done] carries it. *)
Definition falls_back (f : Handler) (attrs : loc) (h1 : heap) (trace : list event)
    (st' : state) : Prop :=
  ∃ args hc rest,
    st_trace st' = trace ++ ECall f args hc :: rest ∧
    Forall is_done_call rest ∧
    (∀ l k, is_Some (h1 !! l) → getv hc (VObj l) k = getv h1 (VObj l) k) ∧
    (∀ o h2, (h_length f < 3)%nat → h_body f args hc = HReturn o h2 →
             is_Some (h2 !! attrs) →
             getv (st_heap st') (VObj attrs) previousIntent
             = getv h2 (VObj attrs) previousIntent) ∧
    (∀ X, handler_respects (previousIntentIs attrs X) f →
          previousIntentIs attrs X h1 →
          previousIntentIs attrs X (st_heap st') ∧ Forall (responds_with X) rest).

(** The handlers that answer for an intent the policy rejects. *)
Definition fallbackHandler (app : App) (handlers : Handlers) (f : Handler) : Prop :=
  f = defaultActionFail handlers ∨ ∃ a, a ∈ actions app ∧ a_fail a = Some f.


(** ** A sample application

    A skill with two intents and two transitions: [Yes] may follow the
    start of the session, and [No] may follow [Yes] only if the [if] of
    that transition holds, which it never does. *)

(** A synchronous handler, [(slots, attrs) => text]. *)
Definition says (text : string) : Handler :=
  {| h_length := 2; h_body := λ _ h, HReturn (VStr text) h |}.

(** An asynchronous handler that answers in a later turn:
    [(slots, attrs, data, done) => { setTimeout(() => done(text)); }]. *)
Definition answersLater (text : string) : Handler :=
  {| h_length := 4;
     h_body := λ _ h,
       HLater VUndef h (λ h1, HFire (VStr text) h1 (λ _ h2, HReturn VUndef h2)) |}.

(** An asynchronous handler that answers during the call:
    [(slots, attrs, data, done) => { done(text); }]. *)
Definition answersNow (text : string) : Handler :=
  {| h_length := 4;
     h_body := λ _ h, HFire (VStr text) h (λ _ h1, HReturn VUndef h1) |}.

(** [(slots, attrs) => false] *)
Definition refuses : Pred := λ slots _ h, (Ok (VBool false, default [] slots), h).

Definition yesIntent : Intent :=
  {| intent_name := "Yes"; intent_handler := says "Great" |}.

Definition noIntent : Intent :=
  {| intent_name := "No"; intent_handler := answersLater "Bye" |}.

Definition startToYes : Action :=
  {| a_from := "@start"; a_to := "Yes"; a_if := None; a_fail := None |}.

Definition yesToNo : Action :=
  {| a_from := "Yes"; a_to := "No"; a_if := Some refuses;
     a_fail := Some (says "Not now") |}.

Definition sample_app : App :=
  {| intents := {[ "Yes" := yesIntent; "No" := noIntent ]};
     actions := [startToYes; yesToNo];
     options := Some {| ids := Some ["amzn1.app.1"]; version := VStr "1.0.0" |} |}.

Definition sample_handlers : Handlers :=
  {| onStart := says "Welcome";
     onEnd := says "Goodbye";
     defaultActionFail := says "Sorry" |}.

(** Nothing allocated, nothing called, nothing scheduled. *)
Definition idle : state :=
  {| st_heap := ∅; st_trace := []; st_pending := [] |}.

(** A session in its second turn: the attributes, at location [0], say
    that [Yes] was handled. *)
Definition after_yes : state :=
  {| st_heap := {[ 0 := {[ previousIntent := VStr "Yes" ]} ]};
     st_trace := []; st_pending := [] |}.

Definition intentRequest (new : bool) (attributes : option loc) (appId name : string)
    (slots : option (list Slot)) : Request :=
  {| session := {| s_new := new; s_attributes := attributes;
                   s_application := {| applicationId := appId |} |};
     request := {| r_type := "IntentRequest";
                   r_intent := Some {| i_name := name; i_slots := slots |} |} |}.

Definition answer : list Slot :=
  [ {| slot_name := "answer"; slot_value := VStr "yes" |} ].

Definition yes_request : Request :=
  intentRequest true None "amzn1.app.1" "Yes" (Some answer).

Definition no_request : Request :=
  intentRequest false (Some 0) "amzn1.app.1" "No" (Some answer).

(** A handler answered [{text: "Hi", attrs: o}] where [o], at location
    [2], holds a [previousIntent] of its own. *)
Definition with_supplied_attrs : state :=
  {| st_heap := {[ 0 := {[ previousIntent := VStr "Yes" ]};
                   1 := {[ "text" := VStr "Hi"; "attrs" := VObj 2 ]};
                   2 := {[ previousIntent := VStr "Spoofed"; "score" := VNum 3 ]} ]};
     st_trace := []; st_pending := [] |}.

(** A handler answered [{text: "Hi", card: {text: "Body"}}]. *)
Definition with_card : state :=
  {| st_heap := {[ 0 := {[ previousIntent := VStr "Yes" ]};
                   1 := {[ "text" := VStr "Hi"; "card" := VObj 2 ]};
                   2 := {[ "text" := VStr "Body" ]} ]};
     st_trace := []; st_pending := [] |}.

(** An application configured with [{ids: [...]}]: options without a
    version. *)
Definition ids_only_app : App :=
  {| intents := ∅; actions := [];
     options := Some {| ids := Some ["amzn1.app.1"]; version := VUndef |} |}.

(** A handler answered
    [{text: "<speak>Hi</speak>", ssml: true, reprompt: "<speak>More?</speak>",
      end: false}]. *)
Definition with_ssml : state :=
  {| st_heap := {[ 0 := {[ previousIntent := VStr "Yes" ]};
                   1 := {[ "text" := VStr "<speak>Hi</speak>";
                           "ssml" := VBool true;
                           "reprompt" := VStr "<speak>More?</speak>";
                           "end" := VBool false ]} ]};
     st_trace := []; st_pending := [] |}.

(** A handler answered [{text: "Hi", attrs: o, card: "Body"}]: the card
    is a string, not an object. *)
Definition with_bad_card : state :=
  {| st_heap := {[ 0 := {[ previousIntent := VStr "Yes" ]};
                   1 := {[ "text" := VStr "Hi"; "attrs" := VObj 2;
                           "card" := VStr "Body" ]};
                   2 := {[ "score" := VNum 3 ]} ]};
     st_trace := []; st_pending := [] |}.

(** [(slots, attrs) => {}] *)
Definition silent : Handler :=
  {| h_length := 2; h_body := λ _ h, HReturn VUndef h |}.

(** [function (slots, attrs) { setTimeout(() => arguments[3]("Late"));
    return "Now"; }]: it answers by returning, and later calls a callback
    it was not given. *)
Definition callsLate : Handler :=
  {| h_length := 2;
     h_body := λ _ h,
       HLater (VStr "Now") h
         (λ h1, HFire (VStr "Late") h1 (λ _ h2, HReturn VUndef h2)) |}.

(** [(slots, attrs) => { throw "closed"; }] *)
Definition throws : Pred := λ _ _ h, (Throw (AppError (VStr "closed")), h).

Definition yesToNoThrowing : Action :=
  {| a_from := "Yes"; a_to := "No"; a_if := Some throws; a_fail := None |}.

Definition throwing_app : App :=
  {| intents := intents sample_app; actions := [yesToNoThrowing]; options := None |}.

(** An action from any intent. *)
Definition anyToYes : Action :=
  {| a_from := "*"; a_to := "Yes"; a_if := None; a_fail := None |}.

Definition lenient_app : App :=
  {| intents := intents sample_app; actions := [startToYes; anyToYes];
     options := None |}.

(** The first request of a session, with an intent the pipeline does not
    look at. *)
Definition launch_request : Request :=
  {| session := {| s_new := true; s_attributes := None;
                   s_application := {| applicationId := "amzn1.app.1" |} |};
     request := {| r_type := "LaunchRequest";
                   r_intent := Some {| i_name := "No"; i_slots := Some answer |} |} |}.

(** A continued session whose attributes, at location [0], are empty. *)
Definition no_history : state :=
  {| st_heap := {[ 0 := ∅ ]}; st_trace := []; st_pending := [] |}.


(** [(slots, attrs) => { attrs.previousIntent = "Other"; return "Hi"; }] *)
Definition overwrites : Handler :=
  {| h_length := 2;
     h_body := λ args h,
       match args with
       | _ :: AVal (VObj attrs) :: _ =>
           HReturn (VStr "Hi") (heap_set h attrs previousIntent (VStr "Other"))
       | _ => HReturn (VStr "Hi") h
       end |}.

(** An application without actions whose one intent writes
    [previousIntent] itself. *)
Definition overwriting_app : App :=
  {| intents := {[ "Yes" := {| intent_name := "Yes"; intent_handler := overwrites |} ]};
     actions := []; options := None |}.




(** A request of a continued session for an intent named as a member of
    [Object.prototype]. *)
Definition constructor_request : Request :=
  intentRequest false (Some 0) "amzn1.app.1" "constructor" (Some answer).

(** ** Scheduled work that cannot answer, objects that store a value *)

(** A scheduled continuation that holds no callback. *)
Definition cannot_answer (t : Task) : Prop := t_callback t = None.

(** The object at [l] is there and holds [v] under [k] ([v] may be
    [undefined]: the key is there). *)
Definition stores (h : heap) (l : loc) (k : string) (v : val) : Prop :=
  ∃ o, h !! l = Some o ∧ o !! k = Some v.

(** * Properties *)

(** ** The heap *)

Lemma getv_heap_set (h : heap) (l : loc) (k : string) (v : val) (l' : loc) (k' : string) :
  getv (heap_set h l k v) (VObj l') k'
  = if decide (l = l' ∧ k = k') then v else getv h (VObj l') k'.
Proof.
  unfold getv, heap_set, obj_at, obj_get.
  destruct (decide (l = l')) as [->|Hl].
  - rewrite lookup_insert_eq. simpl.
    destruct (decide (k = k')) as [->|Hk].
    + rewrite lookup_insert_eq. by rewrite decide_True.
    + rewrite lookup_insert_ne by done. rewrite decide_False; [done|]. tauto.
  - rewrite lookup_insert_ne by done. rewrite decide_False; [done|]. tauto.
Qed.

Lemma fresh_not_allocated (h : heap) (l : loc) :
  is_Some (h !! l) → fresh (dom h) ≠ l.
Proof.
  intros Hl Heq. apply (is_fresh (dom h)). rewrite Heq. by apply elem_of_dom.
Qed.

Lemma getv_heap_alloc (h : heap) (o : obj) (l : loc) (k : string) :
  is_Some (h !! l) →
  getv (heap_alloc h o).2 (VObj l) k = getv h (VObj l) k.
Proof.
  intros Hl. unfold getv, heap_alloc, obj_at. simpl.
  rewrite lookup_insert_ne; [done|]. by apply fresh_not_allocated.
Qed.

Lemma heap_alloc_lookup (h : heap) (o : obj) :
  h !! (heap_alloc h o).1 = None ∧ (heap_alloc h o).2 !! (heap_alloc h o).1 = Some o.
Proof.
  unfold heap_alloc. simpl. split.
  - apply not_elem_of_dom, is_fresh.
  - apply lookup_insert_eq.
Qed.

Lemma getv_heap_alloc_new (h : heap) (o : obj) (k : string) :
  getv (heap_alloc h o).2 (VObj (heap_alloc h o).1) k = obj_get o k.
Proof.
  unfold getv, obj_at. by rewrite (proj2 (heap_alloc_lookup h o)).
Qed.

Lemma heap_set_allocated (h : heap) (l : loc) (k : string) (v : val) (l' : loc) :
  is_Some (h !! l') → is_Some (heap_set h l k v !! l').
Proof.
  intros Hl. unfold heap_set.
  destruct (decide (l = l')) as [->|Hne].
  - rewrite lookup_insert_eq. eauto.
  - by rewrite lookup_insert_ne.
Qed.

Lemma heap_alloc_allocated (h : heap) (o : obj) (l' : loc) :
  is_Some (h !! l') → is_Some ((heap_alloc h o).2 !! l').
Proof.
  intros Hl. unfold heap_alloc. simpl.
  rewrite lookup_insert_ne; [done|]. by apply fresh_not_allocated.
Qed.

(** ** The action lookup *)

Lemma find_first {A} (f : A → bool) (l : list A) (a : A) :
  List.find f l = Some a →
  ∃ i, l !! i = Some a ∧ f a = true ∧ ∀ j b, j < i → l !! j = Some b → f b = false.
Proof.
  induction l as [|x l IH]; simpl; [done|].
  destruct (f x) eqn:Hx.
  - intros [= ->]. exists 0. split_and!; [done..|]. intros j b Hj. lia.
  - intros Hfind. destruct (IH Hfind) as (i & Hi & Ha & Hbefore).
    exists (S i). split_and!; [done..|].
    intros [|j] b Hj; simpl.
    + by intros [= <-].
    + apply Hbefore. lia.
Qed.

Lemma find_nowhere {A} (f : A → bool) (l : list A) :
  List.find f l = None → ∀ b, b ∈ l → f b = false.
Proof.
  intros Hfind b Hb. apply (find_none f l Hfind). by apply list_elem_of_In.
Qed.

Lemma matches_exact prev name a :
  matches prev (VStr name) a = true ↔ in_tier prev name ExactMatch a.
Proof.
  unfold matches. simpl.
  rewrite andb_true_iff, !bool_decide_eq_true. split.
  - by intros [-> [= ->]].
  - by intros [-> ->].
Qed.

Lemma matches_wildcard_target prev name a :
  matches prev (VStr "*") a = true ↔ in_tier prev name WildcardTarget a.
Proof.
  unfold matches. simpl.
  rewrite andb_true_iff, !bool_decide_eq_true. split.
  - by intros [-> [= ->]].
  - by intros [-> ->].
Qed.

Lemma matches_wildcard_source prev name a :
  matches (VStr "*") (VStr name) a = true ↔ in_tier prev name WildcardSource a.
Proof.
  unfold matches. simpl.
  rewrite andb_true_iff, !bool_decide_eq_true. split.
  - by intros [[= ->] [= ->]].
  - by intros [-> ->].
Qed.

Lemma tier_find_Some l prev name t a :
  tier_find l prev name t = Some a → ∃ i, first_of_tier l prev name t i a.
Proof.
  intros Hfind.
  assert (∃ f, List.find f l = Some a ∧
               ∀ b, f b = true ↔ in_tier prev name t b) as (f & Hf & Hiff).
  { destruct t; simpl in Hfind; unfold _find in Hfind; eexists; (split; [exact Hfind|]);
      intros b; [apply matches_exact|apply matches_wildcard_target|apply matches_wildcard_source]. }
  destruct (find_first f l a Hf) as (i & Hi & Ha & Hbefore).
  exists i. split_and!; [done|by apply Hiff|].
  intros j b Hj Hb Hin. apply Hiff in Hin.
  rewrite (Hbefore j b Hj Hb) in Hin. done.
Qed.

Lemma tier_find_None l prev name t :
  tier_find l prev name t = None → ∀ b, b ∈ l → ¬ in_tier prev name t b.
Proof.
  intros Hfind b Hb Hin.
  assert (∃ f, List.find f l = None ∧
               ∀ b, f b = true ↔ in_tier prev name t b) as (f & Hf & Hiff).
  { destruct t; simpl in Hfind; unfold _find in Hfind; eexists; (split; [exact Hfind|]);
      intros c; [apply matches_exact|apply matches_wildcard_target|apply matches_wildcard_source]. }
  apply Hiff in Hin. rewrite (find_nowhere f l Hf b Hb) in Hin. done.
Qed.

Lemma findAction_tiers app h attrs (intent : Intent) :
  findAction app h attrs intent =
  let l := actions app in
  let prev := getv h (VObj attrs) previousIntent in
  let name := intent_name intent in
  match tier_find l prev name ExactMatch with
  | Some a => Some a
  | None =>
      match tier_find l prev name WildcardTarget with
      | Some a => Some a
      | None => tier_find l prev name WildcardSource
      end
  end.
Proof.
  unfold findAction. cbv zeta. unfold tier_find. simpl.
  destruct (_find (actions app) _ (VStr (intent_name intent))); [done|].
  by destruct (_find (actions app) _ (VStr "*")).
Qed.

Lemma first_of_tier_unique l prev name t i a i' a' :
  first_of_tier l prev name t i a → first_of_tier l prev name t i' a' →
  i = i' ∧ a = a'.
Proof.
  intros (Hi & Ha & Hbefore) (Hi' & Ha' & Hbefore').
  assert (i = i') as <-.
  { destruct (lt_eq_lt_dec i i') as [[Hlt|Heq]|Hgt]; [|done|].
    - by destruct (Hbefore' i a Hlt Hi).
    - by destruct (Hbefore i' a' Hgt Hi'). }
  split; [done|]. congruence.
Qed.

Lemma spec_selects_unique l prev name a a' :
  spec_selects l prev name a → spec_selects l prev name a' → a = a'.
Proof.
  intros (t & i & Hfirst & Hlow) (t' & i' & Hfirst' & Hlow').
  assert (t = t') as <-.
  { destruct (lt_eq_lt_dec (tier_rank t) (tier_rank t')) as [[Hlt|Heq]|Hgt].
    - destruct Hfirst as (Hi & Ha & _).
      destruct (Hlow' t a Hlt); [|done]. apply list_elem_of_lookup. eauto.
    - by destruct t, t'.
    - destruct Hfirst' as (Hi' & Ha' & _).
      destruct (Hlow t' a' Hgt); [|done]. apply list_elem_of_lookup. eauto. }
  by destruct (first_of_tier_unique _ _ _ _ _ _ _ _ Hfirst Hfirst').
Qed.

Lemma findAction_selects app h attrs (intent : Intent) :
  match findAction app h attrs intent with
  | Some a =>
      spec_selects (actions app) (getv h (VObj attrs) previousIntent) (intent_name intent) a
  | None =>
      spec_selects_none (actions app) (getv h (VObj attrs) previousIntent) (intent_name intent)
  end.
Proof.
  rewrite findAction_tiers. cbv zeta.
  set (l := actions app). set (prev := getv h (VObj attrs) previousIntent).
  set (name := intent_name intent).
  destruct (tier_find l prev name ExactMatch) as [a|] eqn:H1.
  { destruct (tier_find_Some _ _ _ _ _ H1) as [i Hi].
    exists ExactMatch, i. split; [done|]. intros t' b Hlt. simpl in Hlt. lia. }
  destruct (tier_find l prev name WildcardTarget) as [a|] eqn:H2.
  { destruct (tier_find_Some _ _ _ _ _ H2) as [i Hi].
    exists WildcardTarget, i. split; [done|].
    intros [] b Hlt Hb; simpl in Hlt; try lia.
    by apply (tier_find_None _ _ _ _ H1). }
  destruct (tier_find l prev name WildcardSource) as [a|] eqn:H3.
  { destruct (tier_find_Some _ _ _ _ _ H3) as [i Hi].
    exists WildcardSource, i. split; [done|].
    intros [] b Hlt Hb; simpl in Hlt; try lia.
    - by apply (tier_find_None _ _ _ _ H1).
    - by apply (tier_find_None _ _ _ _ H2). }
  intros [] b Hb; eauto using tier_find_None.
Qed.

(** C2: the transition check selects an action exactly as the three-tier
    priority says.  The action found by lines 111 to 119 is the first
    action, in declaration order, of the first of the tiers exact match,
    wildcard target, wildcard source that holds any action; and no action
    is found exactly when no tier holds one. *)
Theorem findAction_three_tier_priority app h attrs intent :
  let l := actions app in
  let prev := getv h (VObj attrs) previousIntent in
  let name := intent_name intent in
  (∀ a, findAction app h attrs intent = Some a ↔ spec_selects l prev name a) ∧
  (findAction app h attrs intent = None ↔ spec_selects_none l prev name).
Proof.
  intros l prev name.
  pose proof (findAction_selects app h attrs intent) as Hsel.
  fold l prev name in Hsel.
  destruct (findAction app h attrs intent) as [a0|]; split.
  - intros a. split.
    + by intros [= <-].
    + intros Ha. f_equal. by apply (spec_selects_unique l prev name).
  - split; [done|]. intros Hnone.
    destruct Hsel as (t & i & (Hi & Ha & _) & _).
    destruct (Hnone t a0); [|done]. apply list_elem_of_lookup. eauto.
  - intros a. split; [done|].
    intros (t & i & (Hi & Ha & _) & _).
    destruct (Hsel t a); [|done]. apply list_elem_of_lookup. eauto.
  - done.
Qed.

(** ** The session bootstrap *)

(** C5: the attributes of the session before dispatch.  For a new session
    they are a new object holding exactly [previousIntent: "@start"],
    whatever attributes the request carried (the object it carried stays in
    the heap as it was, unreferenced by [data]); otherwise a new empty
    object when the request carried none, and the very object the request
    carried, untouched, when it carried one. *)
Theorem sessionBootstrap_attributes data st :
  (s_new (session data) = true →
   ∃ data' l,
     sessionBootstrap data st
       = (Ok (data', l),
          with_heap st (<[l := {[ previousIntent := VStr "@start" ]}]> (st_heap st))) ∧
     st_heap st !! l = None ∧
     s_attributes (session data') = Some l ∧
     request data' = request data) ∧
  (s_new (session data) = false → s_attributes (session data) = None →
   ∃ data' l,
     sessionBootstrap data st = (Ok (data', l), with_heap st (<[l := ∅]> (st_heap st))) ∧
     st_heap st !! l = None ∧
     s_attributes (session data') = Some l ∧
     request data' = request data) ∧
  (s_new (session data) = false →
   ∀ l, s_attributes (session data) = Some l →
        sessionBootstrap data st = (Ok (data, l), st)).
Proof.
  unfold sessionBootstrap. split_and!.
  - intros ->. do 2 eexists. split_and!; [reflexivity| |done..].
    apply not_elem_of_dom, is_fresh.
  - intros -> ->. do 2 eexists. split_and!; [reflexivity| |done..].
    apply not_elem_of_dom, is_fresh.
  - by intros -> l ->.
Qed.

Lemma sessionBootstrap_trace data st r st' :
  sessionBootstrap data st = (r, st') →
  st_trace st' = st_trace st ∧ st_pending st' = st_pending st ∧ ∃ b, r = Ok b.
Proof.
  unfold sessionBootstrap.
  destruct (s_new (session data)); [|destruct (s_attributes (session data))];
    intros [= <- <-]; eauto.
Qed.

(** ** Validation *)

Lemma rejectsAppId_invalid app data :
  invalidApplicationId app data →
  rejectsAppId app (applicationId (s_application (session data))) = true.
Proof.
  intros (o & l & Ho & Hl & Hne & Hnotin). unfold rejectsAppId.
  rewrite Ho, Hl. apply andb_true_intro. split.
  - destruct l; [done|]. by apply Nat.ltb_lt; simpl; lia.
  - by rewrite bool_decide_eq_false_2.
Qed.

(** ** The response builder, run *)

Lemma getProp_object l k st :
  getProp (VObj l) k st = (Ok (getv (st_heap st) (VObj l) k), st).
Proof. reflexivity. Qed.

Lemma getv_heap_set_other_key (h : heap) (l : loc) (k : string) (x v : val) (k' : string) :
  k ≠ k' → getv (heap_set h l k x) v k' = getv h v k'.
Proof.
  intros Hk. destruct v; try done.
  rewrite getv_heap_set. rewrite decide_False; [done|]. tauto.
Qed.

Lemma responseSessionAttributes_run l attrs st :
  responseSessionAttributes (VObj l) attrs st =
  let h := st_heap st in
  let oattrs := getv h (VObj l) "attrs" in
  if truthy oattrs then
    match oattrs with
    | VObj la =>
        (Ok oattrs,
         with_heap st (heap_set h la previousIntent (getv h (VObj attrs) previousIntent)))
    | _ => (Throw TypeError, st)
    end
  else (Ok (VObj attrs), st).
Proof.
  unfold responseSessionAttributes. cbv zeta.
  unfold bind at 1. rewrite getProp_object.
  destruct (truthy _) eqn:Ht; [|done].
  unfold bind at 1. rewrite getProp_object.
  unfold bind at 1. rewrite getProp_object.
  by destruct (getv (st_heap st) (VObj l) "attrs").
Qed.

Lemma createCardObject_run c st :
  createCardObject c st =
  if truthy c then
    match c with
    | VObj lc =>
        if truthy (getv (st_heap st) c "type") then (Ok c, st)
        else (Ok c, with_heap st (heap_set (st_heap st) lc "type" (VStr "Simple")))
    | _ => (Throw TypeError, st)
    end
  else (Ok VUndef, st).
Proof.
  unfold createCardObject.
  destruct (truthy c) eqn:Ht; [|done].
  destruct c; try done; unfold bind at 1; simpl.
  by destruct (truthy (getv (st_heap st) (VObj l) "type")).
Qed.

Lemma getShouldEndSession_object l st :
  getShouldEndSession (VObj l) st =
  (Ok (if decide (getv (st_heap st) (VObj l) "end" = VUndef) then VBool true
       else getv (st_heap st) (VObj l) "end"), st).
Proof.
  unfold getShouldEndSession. simpl. unfold bind, get_heap, ret.
  by destruct (decide _).
Qed.

Lemma createResponse_object lo slots attrs app st :
  createResponse (VObj lo) slots attrs app st =
  let h := st_heap st in
  match responseSessionAttributes (VObj lo) attrs st with
  | (Ok sa, st1) =>
      let h1 := st_heap st1 in
      match createCardObject (getv h1 (VObj lo) "card") st1 with
      | (Ok c, st2) =>
          (Ok {| resp_version := responseVersion app;
                 sessionAttributes := sa;
                 response :=
                   {| outputSpeech :=
                        createOutputSpeechObject (getv h (VObj lo) "text")
                                                 (getv h (VObj lo) "ssml");
                      shouldEndSession :=
                        if decide (getv h1 (VObj lo) "end" = VUndef) then VBool true
                        else getv h1 (VObj lo) "end";
                      reprompt :=
                        if truthy (getv h1 (VObj lo) "reprompt")
                        then Some (createOutputSpeechObject
                                     (getv h1 (VObj lo) "reprompt")
                                     (getv h1 (VObj lo) "ssml"))
                        else None;
                      card := if truthy c then Some c else None |} |}, st2)
      | (Throw e, st2) => (Throw e, st2)
      end
  | (Throw e, st1) => (Throw e, st1)
  end.
Proof.
  unfold createResponse. cbv zeta.
  unfold bind at 1. unfold ret at 1.
  unfold bind at 1. rewrite getProp_object.
  unfold bind at 1. rewrite getProp_object.
  unfold bind at 1.
  destruct (responseSessionAttributes (VObj lo) attrs st) as [[sa|e] st1]; [|done].
  unfold bind at 1. rewrite getShouldEndSession_object.
  unfold bind at 1. rewrite getProp_object.
  unfold bind at 1.
  assert ((if truthy (getv (st_heap st1) (VObj lo) "reprompt")
           then rp <- getProp (VObj lo) "reprompt";;
                ssml <- getProp (VObj lo) "ssml";;
                ret (Some (createOutputSpeechObject rp ssml))
           else ret None) st1
          = (Ok (if truthy (getv (st_heap st1) (VObj lo) "reprompt")
                 then Some (createOutputSpeechObject
                              (getv (st_heap st1) (VObj lo) "reprompt")
                              (getv (st_heap st1) (VObj lo) "ssml"))
                 else None), st1)) as ->.
  { by destruct (truthy _). }
  unfold bind at 1. rewrite getProp_object.
  unfold bind at 1.
  by destruct (createCardObject _ st1) as [[c|e] st2].
Qed.

Lemma createResponse_string s slots attrs app st :
  createResponse (VStr s) slots attrs app st =
  let '(l, h) := heap_alloc (st_heap st) {[ "text" := VStr s ]} in
  createResponse (VObj l) slots attrs app (with_heap st h).
Proof. reflexivity. Qed.

Lemma createResponse_undefined opts slots attrs app st :
  opts = VUndef ∨ opts = VNull →
  createResponse opts slots attrs app st = (Throw TypeError, st).
Proof. by intros [-> | ->]. Qed.

Lemma createResponse_primitive opts slots attrs app st :
  (∃ b, opts = VBool b) ∨ (∃ n, opts = VNum n) →
  createResponse opts slots attrs app st =
  (Ok {| resp_version := responseVersion app;
         sessionAttributes := VObj attrs;
         response := {| outputSpeech := PlainText VUndef;
                        shouldEndSession := VBool true;
                        reprompt := None;
                        card := None |} |}, st).
Proof.
  intros [[b ->]|[n ->]]; unfold createResponse, getShouldEndSession;
    simpl; unfold bind, ret; simpl.
  - by destruct b.
  - by destruct (n =? 0)%Z.
Qed.

(** ** What the response builder writes *)

Lemma unchanged_outside_refl W st : unchanged_outside W st st.
Proof. by repeat split. Qed.

Lemma unchanged_outside_trans W st1 st2 st3 :
  unchanged_outside W st1 st2 → unchanged_outside W st2 st3 →
  unchanged_outside W st1 st3.
Proof.
  intros (Ht & Hp & Hd & Hg) (Ht' & Hp' & Hd' & Hg').
  split_and!; [congruence|congruence|by eauto|].
  intros l k Hl HW. rewrite Hg' by eauto. by apply Hg.
Qed.

Lemma unchanged_outside_mono (W W' : loc → string → Prop) st st' :
  (∀ l k, W l k → W' l k) → unchanged_outside W st st' → unchanged_outside W' st st'.
Proof.
  intros HW (Ht & Hp & Hd & Hg). split_and!; [done..|].
  intros l k Hl HW'. apply Hg; [done|]. by intros ?%HW.
Qed.

Lemma heap_set_unchanged_outside (W : loc → string → Prop) st l k v :
  W l k → unchanged_outside W st (with_heap st (heap_set (st_heap st) l k v)).
Proof.
  intros HW. split_and!; [done..| |]; simpl.
  - intros l'. apply heap_set_allocated.
  - intros l' k' _ HW'. rewrite getv_heap_set.
    rewrite decide_False; [done|]. by intros [-> ->].
Qed.

Lemma heap_alloc_unchanged_outside W st o :
  unchanged_outside W st (with_heap st (heap_alloc (st_heap st) o).2).
Proof.
  split_and!; [done..| |].
  - intros l. apply heap_alloc_allocated.
  - intros l k Hl _. by apply getv_heap_alloc.
Qed.

Lemma responseSessionAttributes_writes lo attrs st :
  unchanged_outside
    (λ l k, getv (st_heap st) (VObj lo) "attrs" = VObj l ∧ k = previousIntent)
    st (responseSessionAttributes (VObj lo) attrs st).2.
Proof.
  rewrite responseSessionAttributes_run. cbv zeta.
  destruct (truthy _); [|apply unchanged_outside_refl].
  destruct (getv (st_heap st) (VObj lo) "attrs") eqn:Hoa;
    try apply unchanged_outside_refl.
  simpl. by apply heap_set_unchanged_outside.
Qed.

Lemma createCardObject_writes c st :
  unchanged_outside
    (λ l k, c = VObj l ∧ k = "type" ∧ truthy (getv (st_heap st) (VObj l) "type") = false)
    st (createCardObject c st).2.
Proof.
  rewrite createCardObject_run.
  destruct (truthy c); [|apply unchanged_outside_refl].
  destruct c; try apply unchanged_outside_refl.
  destruct (truthy _) eqn:Hty; [apply unchanged_outside_refl|].
  simpl. by apply heap_set_unchanged_outside.
Qed.

Lemma createCardObject_keeps c st v k :
  k ≠ "type" →
  getv (st_heap (createCardObject c st).2) v k = getv (st_heap st) v k.
Proof.
  intros Hk. rewrite createCardObject_run.
  destruct (truthy c); [|done].
  destruct c; try done.
  destruct (truthy _); [done|].
  simpl. by apply getv_heap_set_other_key.
Qed.

(** The card is read after the attributes were written, and reads the same. *)
Lemma responseSessionAttributes_keeps lo attrs st v k :
  k ≠ previousIntent →
  getv (st_heap (responseSessionAttributes (VObj lo) attrs st).2) v k
  = getv (st_heap st) v k.
Proof.
  intros Hk. rewrite responseSessionAttributes_run. cbv zeta.
  destruct (truthy _); [|done].
  destruct (getv (st_heap st) (VObj lo) "attrs"); try done.
  simpl. by apply getv_heap_set_other_key.
Qed.

Lemma createResponse_object_writes lo slots attrs app st :
  unchanged_outside (synthesisWrites (st_heap st) (VObj lo))
    st (createResponse (VObj lo) slots attrs app st).2.
Proof.
  rewrite createResponse_object. cbv zeta.
  pose proof (responseSessionAttributes_writes lo attrs st) as H1.
  pose proof (responseSessionAttributes_keeps lo attrs st (VObj lo) "card") as Hcard.
  pose proof (λ v, responseSessionAttributes_keeps lo attrs st v "type") as Htype.
  destruct (responseSessionAttributes (VObj lo) attrs st) as [[sa|e] st1]; simpl in *.
  - pose proof (createCardObject_writes (getv (st_heap st1) (VObj lo) "card") st1) as H2.
    rewrite Hcard in H2 by done.

    assert (unchanged_outside (synthesisWrites (st_heap st) (VObj lo)) st
              (createCardObject (getv (st_heap st) (VObj lo) "card") st1).2) as H.
    { eapply unchanged_outside_trans.
      - eapply unchanged_outside_mono; [|exact H1]. intros l k ?. by left.
      - eapply unchanged_outside_mono; [|exact H2].
        intros l k (Hc & Hk & Hty). right. split_and!; [done..|].
        by rewrite <- Htype. }
    rewrite Hcard by done.
    by destruct (createCardObject _ st1) as [[c|e] st2].
  - eapply unchanged_outside_mono; [|exact H1]. intros l k ?. by left.
Qed.

Lemma createResponse_writes opts slots attrs app st :
  unchanged_outside (synthesisWrites (st_heap st) opts)
    st (createResponse opts slots attrs app st).2.
Proof.
  destruct opts as [| |b|n|s|lo].
  - rewrite createResponse_undefined by eauto. apply unchanged_outside_refl.
  - rewrite createResponse_undefined by eauto. apply unchanged_outside_refl.
  - rewrite createResponse_primitive by eauto. apply unchanged_outside_refl.
  - rewrite createResponse_primitive by eauto. apply unchanged_outside_refl.
  - rewrite createResponse_string.
    pose proof (heap_alloc_unchanged_outside (synthesisWrites (st_heap st) (VStr s))
                  st {[ "text" := VStr s ]}) as Halloc.
    pose proof (heap_alloc_lookup (st_heap st) {[ "text" := VStr s ]}) as [Hfresh Hnew].
    destruct (heap_alloc (st_heap st) _) as [l h1] eqn:Ha. simpl in *.
    eapply unchanged_outside_trans; [exact Halloc|].
    eapply unchanged_outside_mono; [|apply createResponse_object_writes].
    intros l' k [[Hl _]|[Hl _]]; exfalso; revert Hl; simpl;
      unfold getv, obj_at, obj_get; rewrite Hnew; simpl;
      by rewrite lookup_singleton_ne.
  - apply createResponse_object_writes.
Qed.

(** ** [previousIntent] through the response builder *)

Lemma responseSessionAttributes_previousIntent lo attrs st :
  let X := getv (st_heap st) (VObj attrs) previousIntent in
  let '(r, st1) := responseSessionAttributes (VObj lo) attrs st in
  getv (st_heap st1) (VObj attrs) previousIntent = X ∧
  ∀ sa, r = Ok sa → getv (st_heap st1) sa previousIntent = X.
Proof.
  rewrite responseSessionAttributes_run. cbv zeta.
  destruct (truthy _); [|by split; [|intros sa [= <-]]].
  destruct (getv (st_heap st) (VObj lo) "attrs") as [| | | | |la];
    try by split.
  simpl. split.
  - rewrite getv_heap_set. by case_decide as Hd; [destruct Hd as [-> _]|].
  - intros sa [= <-]. rewrite getv_heap_set. by rewrite decide_True.
Qed.

Lemma createResponse_object_previousIntent lo slots attrs app st :
  let X := getv (st_heap st) (VObj attrs) previousIntent in
  let '(r, st') := createResponse (VObj lo) slots attrs app st in
  getv (st_heap st') (VObj attrs) previousIntent = X ∧
  ∀ resp, r = Ok resp → getv (st_heap st') (sessionAttributes resp) previousIntent = X.
Proof.
  rewrite createResponse_object. cbv zeta.
  pose proof (responseSessionAttributes_previousIntent lo attrs st) as H1.
  cbv zeta in H1.
  destruct (responseSessionAttributes (VObj lo) attrs st) as [[sa|e] st1];
    destruct H1 as [Hattrs Hsa]; [|by split].
  pose proof (λ v, createCardObject_keeps (getv (st_heap st1) (VObj lo) "card")
                     st1 v previousIntent) as Hkeep.
  destruct (createCardObject _ st1) as [[c|e] st2]; simpl in Hkeep.
  - split; [by rewrite Hkeep|].
    intros resp [= <-]. simpl. rewrite Hkeep by done. by apply Hsa.
  - split; [by rewrite Hkeep|done].
Qed.

Lemma createResponse_previousIntent opts slots attrs app st r st' :
  createResponse opts slots attrs app st = (r, st') →
  is_Some (st_heap st !! attrs) →
  is_Some (st_heap st' !! attrs) ∧
  getv (st_heap st') (VObj attrs) previousIntent
    = getv (st_heap st) (VObj attrs) previousIntent ∧
  ∀ resp, r = Ok resp →
          getv (st_heap st') (sessionAttributes resp) previousIntent
          = getv (st_heap st) (VObj attrs) previousIntent.
Proof.
  intros Hrun Hattrs. split.
  { pose proof (createResponse_writes opts slots attrs app st) as (_ & _ & Hd & _).
    rewrite Hrun in Hd. by apply Hd. }
  destruct opts as [| |b|n|s|lo].
  - rewrite createResponse_undefined in Hrun by eauto. by injection Hrun as <- <-.
  - rewrite createResponse_undefined in Hrun by eauto. by injection Hrun as <- <-.
  - rewrite createResponse_primitive in Hrun by eauto. injection Hrun as <- <-.
    split; [done|]. by intros resp [= <-].
  - rewrite createResponse_primitive in Hrun by eauto. injection Hrun as <- <-.
    split; [done|]. by intros resp [= <-].
  - rewrite createResponse_string in Hrun.
    pose proof (getv_heap_alloc (st_heap st) {[ "text" := VStr s ]} attrs
                  previousIntent Hattrs) as Halloc.
    destruct (heap_alloc (st_heap st) _) as [l h1]. simpl in Halloc.
    pose proof (createResponse_object_previousIntent l slots attrs app
                  (with_heap st h1)) as Hobj.
    cbv zeta in Hobj. rewrite Hrun in Hobj. simpl in Hobj.
    by rewrite Halloc in Hobj.
  - pose proof (createResponse_object_previousIntent lo slots attrs app st) as Hobj.
    cbv zeta in Hobj. by rewrite Hrun in Hobj.
Qed.

(** ** When a response is built *)

Lemma createResponse_object_succeeds lo slots attrs app st :
  absent_or_object (getv (st_heap st) (VObj lo) "attrs") →
  absent_or_object (getv (st_heap st) (VObj lo) "card") →
  ∃ resp st',
    createResponse (VObj lo) slots attrs app st = (Ok resp, st') ∧
    sessionAttributes resp
    = if truthy (getv (st_heap st) (VObj lo) "attrs")
      then getv (st_heap st) (VObj lo) "attrs" else VObj attrs.
Proof.
  intros Hattrs Hcard. rewrite createResponse_object. cbv zeta.
  pose proof (responseSessionAttributes_keeps lo attrs st (VObj lo) "card") as Hkeep.
  rewrite responseSessionAttributes_run in Hkeep |- *. cbv zeta in Hkeep |- *.
  assert (∀ sa st1,
            getv (st_heap st1) (VObj lo) "card" = getv (st_heap st) (VObj lo) "card" →
            ∃ resp st',
              match createCardObject (getv (st_heap st1) (VObj lo) "card") st1 with
              | (Ok c, st2) =>
                  (Ok {| resp_version := responseVersion app;
                         sessionAttributes := sa;
                         response :=
                           {| outputSpeech :=
                                createOutputSpeechObject
                                  (getv (st_heap st) (VObj lo) "text")
                                  (getv (st_heap st) (VObj lo) "ssml");
                              shouldEndSession :=
                                if decide (getv (st_heap st1) (VObj lo) "end" = VUndef)
                                then VBool true
                                else getv (st_heap st1) (VObj lo) "end";
                              reprompt :=
                                if truthy (getv (st_heap st1) (VObj lo) "reprompt")
                                then Some (createOutputSpeechObject
                                             (getv (st_heap st1) (VObj lo) "reprompt")
                                             (getv (st_heap st1) (VObj lo) "ssml"))
                                else None;
                              card := if truthy c then Some c else None |} |}, st2)
              | (Throw e, st2) => (Throw e, st2)
              end = (Ok resp, st') ∧ sessionAttributes resp = sa) as Hcardstep.
  { intros sa st1 Hsame. rewrite createCardObject_run, Hsame.
    destruct Hcard as [Hfalsy|[lc Hlc]].
    - rewrite Hfalsy. by eexists _, _.
    - rewrite Hlc. simpl.
      destruct (truthy (getv (st_heap st1) (VObj lc) "type")); by eexists _, _. }
  destruct Hattrs as [Hfalsy|[la Hla]].
  - rewrite Hfalsy in Hkeep |- *. by apply Hcardstep.
  - rewrite Hla in Hkeep |- *. simpl in Hkeep.
    exact (Hcardstep (VObj la)
             (with_heap st (heap_set (st_heap st) la previousIntent
                              (getv (st_heap st) (VObj attrs) previousIntent)))
             (Hkeep ltac:(done))).
Qed.

Lemma getv_primitive h v k : (∀ l, v ≠ VObj l) → getv h v k = VUndef.
Proof. intros Hv. destruct v; try done. by destruct (Hv l). Qed.

(** The card does not make the synthesis throw, and the options are not
    [undefined] or [null]: a response is built. *)
Lemma createResponse_succeeds opts slots attrs app st :
  opts ≠ VUndef → opts ≠ VNull →
  absent_or_object (getv (st_heap st) opts "attrs") →
  absent_or_object (getv (st_heap st) opts "card") →
  ∃ resp st',
    createResponse opts slots attrs app st = (Ok resp, st') ∧
    sessionAttributes resp
    = if truthy (getv (st_heap st) opts "attrs")
      then getv (st_heap st) opts "attrs" else VObj attrs.
Proof.
  intros Hu Hn Hattrs Hcard.
  destruct opts as [| |b|n|s|lo]; try done.
  - rewrite createResponse_primitive by eauto. by eexists _, _.
  - rewrite createResponse_primitive by eauto. by eexists _, _.
  - rewrite createResponse_string.
    pose proof (heap_alloc_lookup (st_heap st) {[ "text" := VStr s ]}) as [_ Hnew].
    destruct (heap_alloc (st_heap st) _) as [l h1]. simpl in Hnew.
    assert (∀ k, k ≠ "text" → getv h1 (VObj l) k = VUndef) as Hfields.
    { intros k Hk. unfold getv, obj_at, obj_get. rewrite Hnew. simpl.
      by rewrite lookup_singleton_ne. }
    destruct (createResponse_object_succeeds l slots attrs app (with_heap st h1))
      as (resp & st' & Hrun & Hsa).
    + left. simpl. by rewrite Hfields.
    + left. simpl. by rewrite Hfields.
    + exists resp, st'. split; [done|].
      rewrite Hsa. simpl. by rewrite Hfields.
  - by apply createResponse_object_succeeds.
Qed.

Lemma createResponse_synthesizable opts slots attrs app st :
  synthesizable (st_heap st) opts →
  ∃ resp st', createResponse opts slots attrs app st = (Ok resp, st').
Proof.
  intros (Hu & Hn & Hattrs & Hcard).
  assert (∀ k, absent_or_object (optionField (st_heap st) opts k) →
               absent_or_object (getv (st_heap st) opts k)) as Hfield.
  { intros k. destruct opts as [| | | |s|lo]; try done; intros _; by left. }
  destruct (createResponse_succeeds opts slots attrs app st Hu Hn
              (Hfield _ Hattrs) (Hfield _ Hcard)) as (resp & st' & Hrun & _).
  eauto.
Qed.

(** ** Handlers that keep [previousIntent] *)

Section Respect.

Variables (attrs : loc) (X : val).
Let P := previousIntentIs attrs X.

Lemma extends_well_refl st : P (st_heap st) → extends_well attrs X st st.
Proof.
  intros HP. split; [done|]. exists [], []. by rewrite !app_nil_r.
Qed.

Lemma extends_well_trans st1 st2 st3 :
  extends_well attrs X st1 st2 → extends_well attrs X st2 st3 → extends_well attrs X st1 st3.
Proof.
  intros (_ & evs & tasks & Ht & Hevs & Hp & Htasks)
         (HP & evs' & tasks' & Ht' & Hevs' & Hp' & Htasks').
  split; [done|]. exists (evs ++ evs'), (tasks ++ tasks').
  rewrite Ht', Ht, Hp', Hp, !app_assoc.
  split_and!; [done|by apply Forall_app|done|by apply Forall_app].
Qed.

Lemma optionsReady_extends_well c o st :
  c_attrs c = attrs → P (st_heap st) → extends_well attrs X st (optionsReady c o st).2.
Proof.
  intros Hc [Hsome HX]. unfold optionsReady, bind. rewrite Hc.
  destruct (createResponse o (c_slots c) attrs (c_app c) st) as [r st1] eqn:Hrun.
  pose proof (createResponse_writes o (c_slots c) attrs (c_app c) st) as (Htr & Hpe & _).
  rewrite Hrun in Htr, Hpe. simpl in Htr, Hpe.
  destruct (createResponse_previousIntent _ _ _ _ _ _ _ Hrun Hsome) as (Hsome1 & HX1 & Hresp).
  assert (P (st_heap st1)) as HP1 by (split; [done|congruence]).
  destruct r as [resp|e]; simpl.
  - split; [done|]. exists [EDone resp (st_heap st1)], []. rewrite app_nil_r, Htr.
    split_and!; [done| |done..].
    apply Forall_singleton. simpl. rewrite (Hresp resp) by done. done.
  - split; [done|]. exists [], []. by rewrite !app_nil_r.
Qed.

Lemma run_extends_well cb p st :
  (∀ c, cb = Some c → c_attrs c = attrs) →
  respects P p → extends_well attrs X st (run cb p st).2.
Proof.
  intros Hcb Hp. revert st.
  induction Hp as [v h Hh|e h Hh|o h k Hh Hk IH|v h k Hh Hk IH]; intros st; simpl.
  - by apply (extends_well_refl (with_heap st h)).
  - by apply (extends_well_refl (with_heap st h)).
  - destruct cb as [c|].
    + pose proof (optionsReady_extends_well c o (with_heap st h) (Hcb c eq_refl) Hh) as H1.
      destruct (optionsReady c o (with_heap st h)) as [r st1]. simpl in H1.
      eapply (extends_well_trans _ st1); [exact H1|].
      apply IH. apply H1.
    + apply (IH _ _ Hh (with_heap st h)).
  - split; [done|]. exists [], [ {| t_body := k; t_callback := cb |} ].
    rewrite app_nil_r. split_and!; [done..|].
    apply Forall_singleton. by split.
Qed.

Lemma callHandler_extends_well f slots app data st :
  handler_respects P f → P (st_heap st) →
  extends_well attrs X st (callHandler f slots attrs app data st).2.
Proof.
  intros Hf [Hsome HX]. unfold callHandler.
  unfold bind at 1. unfold alloc, bind at 1, get_heap, put_heap, ret. simpl.
  set (sl := fresh (dom (st_heap st))).
  set (h1 := <[sl := transform slots]> (st_heap st)).
  assert (P h1) as HP1.
  { split.
    - by apply (heap_alloc_allocated (st_heap st) (transform slots)).
    - rewrite <- HX. by apply (getv_heap_alloc (st_heap st) (transform slots)). }
  set (st1 := with_heap st h1).
  assert (∀ args cb, (∀ c, cb = Some c → c_attrs c = attrs) →
            extends_well attrs X st (invoke f args cb st1).2) as Hinvoke.
  { intros args cb Hcb. unfold invoke, bind, get_heap, emit. simpl.
    eapply extends_well_trans; [|apply run_extends_well; [done|by apply Hf]].
    split; [done|]. exists [ECall f args h1], []. rewrite app_nil_r.
    split_and!; [done| |done..]. by apply Forall_singleton. }
  destruct (h_length f <? 3)%nat.
  - unfold bind.
    specialize (Hinvoke [AVal (VObj sl); AVal (VObj attrs); AData data] None).
    destruct (invoke f _ None st1) as [[o|e] st2]; simpl in Hinvoke.
    + eapply extends_well_trans; [by apply Hinvoke|].
      apply optionsReady_extends_well; [done|]. by apply Hinvoke.
    + by apply Hinvoke.
  - unfold bind.
    specialize (Hinvoke [AVal (VObj sl); AVal (VObj attrs); AData data; ACallback]
                  (Some {| c_slots := sl; c_attrs := attrs; c_app := app |})).
    destruct (invoke f _ _ st1) as [[o|e] st2]; simpl in Hinvoke |- *;
      apply Hinvoke; by intros c [= <-].
Qed.

Lemma well_kept_extends base st st' :
  well_kept attrs X base st → extends_well attrs X st st' → well_kept attrs X base st'.
Proof.
  intros (_ & (evs & Ht & Hevs) & Htasks) (HP & evs' & tasks' & Ht' & Hevs' & Hp' & Htasks').
  split_and!; [done| |].
  - exists (evs ++ evs'). rewrite Ht', Ht, app_assoc. split; [done|by apply Forall_app].
  - rewrite Hp'. by apply Forall_app.
Qed.

Lemma tick_well_kept base st :
  well_kept attrs X base st → well_kept attrs X base (tick st).2.
Proof.
  intros Hst. pose proof Hst as (HP & Htrace & Htasks). unfold tick.
  destruct (st_pending st) as [|t ts] eqn:Hpending; [done|].
  apply Forall_cons in Htasks as [[Hbody Hcb] Hts].
  set (st0 := {| st_heap := st_heap st; st_trace := st_trace st; st_pending := ts |}).
  assert (well_kept attrs X base st0) as Hst0 by done.
  pose proof (run_extends_well (t_callback t) (t_body t (st_heap st)) st0 Hcb
                (Hbody _ HP)) as Hrun.
  unfold bind.
  destruct (run (t_callback t) (t_body t (st_heap st)) st0) as [[v|e] st1];
    by apply (well_kept_extends base st0).
Qed.

Lemma turns_well_kept n base st :
  well_kept attrs X base st → well_kept attrs X base (turns n st).
Proof.
  revert st. induction n as [|n IH]; intros st Hst; simpl; [done|].
  by apply IH, tick_well_kept.
Qed.

End Respect.

(** ** The handler invoker, run *)

Lemma callHandler_sync f slots attrs app data st :
  (h_length f <? 3)%nat = true →
  callHandler f slots attrs app data st =
  let args := syncArgs st slots attrs data in
  match run None (h_body f args (callHeap st slots)) (called st slots f args) with
  | (Ok o, st2) => optionsReady (closureOf st slots attrs app) o st2
  | (Throw e, st2) => (Throw e, st2)
  end.
Proof.
  intros Hlen. unfold callHandler. rewrite Hlen. reflexivity.
Qed.

Lemma callHandler_async f slots attrs app data st :
  (h_length f <? 3)%nat = false →
  callHandler f slots attrs app data st =
  let args := asyncArgs st slots attrs data in
  match run (Some (closureOf st slots attrs app))
          (h_body f args (callHeap st slots)) (called st slots f args) with
  | (Ok _, st2) => (Ok tt, st2)
  | (Throw e, st2) => (Throw e, st2)
  end.
Proof.
  intros Hlen. unfold callHandler. rewrite Hlen. reflexivity.
Qed.

Lemma optionsReady_run c o st :
  optionsReady c o st =
  match createResponse o (c_slots c) (c_attrs c) (c_app c) st with
  | (Ok r, st1) =>
      (Ok tt, {| st_heap := st_heap st1;
                 st_trace := st_trace st1 ++ [EDone r (st_heap st1)];
                 st_pending := st_pending st1 |})
  | (Throw e, st1) => (Throw e, st1)
  end.
Proof.
  unfold optionsReady, bind. by destruct (createResponse _ _ _ _ st) as [[r|e] st1].
Qed.

(** What [optionsReady], the run of a handler body and the later turns
    add to the trace are calls of [done]: the pipeline calls no handler
    from there. *)
Lemma optionsReady_trace c o st :
  ∃ evs, st_trace (optionsReady c o st).2 = st_trace st ++ evs ∧
         Forall is_done_call evs.
Proof.
  rewrite optionsReady_run.
  pose proof (createResponse_writes o (c_slots c) (c_attrs c) (c_app c) st) as (Ht & _).
  destruct (createResponse _ _ _ _ st) as [[r|e] st1]; simpl in *.
  - exists [EDone r (st_heap st1)]. split; [by rewrite Ht|by apply Forall_singleton].
  - exists []. split; [by rewrite app_nil_r|constructor].
Qed.

Lemma run_trace cb p st :
  ∃ evs, st_trace (run cb p st).2 = st_trace st ++ evs ∧ Forall is_done_call evs.
Proof.
  revert st. induction p as [v h|e h|o h k IH|v h k IH]; intros st; simpl.
  - exists []. split; [by rewrite app_nil_r|constructor].
  - exists []. split; [by rewrite app_nil_r|constructor].
  - destruct cb as [c|].
    + destruct (optionsReady_trace c o (with_heap st h)) as (evs & Hevs & Hdone).
      destruct (optionsReady c o (with_heap st h)) as [r st1]. simpl in Hevs.
      destruct (IH r (st_heap st1) st1) as (evs' & Hevs' & Hdone').
      exists (evs ++ evs'). split; [by rewrite Hevs', Hevs, app_assoc|].
      by apply Forall_app.
    + apply (IH _ _ (with_heap st h)).
  - exists []. split; [by rewrite app_nil_r|constructor].
Qed.

Lemma tick_trace st :
  ∃ evs, st_trace (tick st).2 = st_trace st ++ evs ∧ Forall is_done_call evs.
Proof.
  unfold tick. destruct (st_pending st) as [|t ts].
  { exists []. split; [by rewrite app_nil_r|constructor]. }
  unfold bind.
  destruct (run_trace (t_callback t) (t_body t (st_heap st))
              {| st_heap := st_heap st; st_trace := st_trace st; st_pending := ts |})
    as (evs & Hevs & Hdone).
  destruct (run _ _ _) as [[v|e] st1]; exists evs; by split.
Qed.

Lemma turns_trace n st :
  ∃ evs, st_trace (turns n st) = st_trace st ++ evs ∧ Forall is_done_call evs.
Proof.
  revert st. induction n as [|n IH]; intros st; simpl.
  { exists []. split; [by rewrite app_nil_r|constructor]. }
  destruct (tick_trace st) as (evs & Hevs & Hdone).
  destruct (IH (tick st).2) as (evs' & Hevs' & Hdone').
  exists (evs ++ evs'). split; [by rewrite Hevs', Hevs, app_assoc|].
  by apply Forall_app.
Qed.

(** Whatever the handler, the first thing [callHandler] does to the
    outside is to call it, with the normalised slots in a new object; it
    calls no other handler. *)
Lemma callHandler_trace f slots attrs app data st :
  ∃ rest,
    st_trace (callHandler f slots attrs app data st).2
    = st_trace st
      ++ ECall f (if (h_length f <? 3)%nat then syncArgs st slots attrs data
                  else asyncArgs st slots attrs data) (callHeap st slots)
      :: rest ∧
    Forall is_done_call rest.
Proof.
  destruct (h_length f <? 3)%nat eqn:Hlen.
  - rewrite callHandler_sync by done. cbv zeta.
    destruct (run_trace None (h_body f (syncArgs st slots attrs data) (callHeap st slots))
                (called st slots f (syncArgs st slots attrs data)))
      as (evs & Hevs & Hdone).
    destruct (run None _ _) as [[o|e] st2]; simpl in Hevs.
    + destruct (optionsReady_trace (closureOf st slots attrs app) o st2)
        as (evs' & Hevs' & Hdone').
      exists (evs ++ evs'). split; [|by apply Forall_app].
      rewrite Hevs', Hevs. by rewrite <- !app_assoc.
    + exists evs. split; [|done]. simpl. rewrite Hevs. by rewrite <- app_assoc.
  - rewrite callHandler_async by done. cbv zeta.
    destruct (run_trace (Some (closureOf st slots attrs app))
                (h_body f (asyncArgs st slots attrs data) (callHeap st slots))
                (called st slots f (asyncArgs st slots attrs data)))
      as (evs & Hevs & Hdone).
    destruct (run (Some _) _ _) as [[o|e] st2]; simpl in Hevs;
      exists evs; (split; [|done]); simpl; rewrite Hevs; by rewrite <- app_assoc.
Qed.

Lemma callHandler_sync_return f slots attrs app data st o h2 resp st' :
  (h_length f <? 3)%nat = true →
  h_body f (syncArgs st slots attrs data) (callHeap st slots) = HReturn o h2 →
  createResponse o (slotsLoc st slots) attrs app
    (with_heap (called st slots f (syncArgs st slots attrs data)) h2) = (Ok resp, st') →
  callHandler f slots attrs app data st
  = (Ok tt,
     {| st_heap := st_heap st';
        st_trace := st_trace st ++ [ECall f (syncArgs st slots attrs data)
                                      (callHeap st slots);
                                    EDone resp (st_heap st')];
        st_pending := st_pending st |}).
Proof.
  intros Hlen Hbody Hcreate.
  pose proof (createResponse_writes o (slotsLoc st slots) attrs app
                (with_heap (called st slots f (syncArgs st slots attrs data)) h2))
    as (Ht & Hp & _).
  rewrite Hcreate in Ht, Hp. simpl in Ht, Hp.
  rewrite callHandler_sync by done. cbv zeta. rewrite Hbody. simpl.
  rewrite optionsReady_run. simpl. rewrite Hcreate. rewrite Ht, Hp.
  by rewrite <- app_assoc.
Qed.

Lemma callHandler_answers_at_once f slots attrs app data st rest :
  st_trace (callHandler f slots attrs app data st).2
  = st_trace st
    ++ ECall f (if (h_length f <? 3)%nat then syncArgs st slots attrs data
                else asyncArgs st slots attrs data) (callHeap st slots)
    :: rest →
  answers_at_once f (if (h_length f <? 3)%nat then syncArgs st slots attrs data
                     else asyncArgs st slots attrs data) (callHeap st slots) rest.
Proof.
  intros Hrest o h2 Hlen%Nat.ltb_lt. rewrite Hlen in Hrest |- *. intros Hbody Hsyn.
  destruct (createResponse_synthesizable o (slotsLoc st slots) attrs app
              (with_heap (called st slots f (syncArgs st slots attrs data)) h2) Hsyn)
    as (resp & st' & Hrun).
  rewrite (callHandler_sync_return _ _ _ _ _ _ _ _ _ _ Hlen Hbody Hrun) in Hrest.
  simpl in Hrest. apply app_inv_head in Hrest. injection Hrest as <-. eauto.
Qed.

Lemma callHeap_slots st slots :
  st_heap st !! slotsLoc st slots = None ∧
  callHeap st slots !! slotsLoc st slots = Some (transform slots).
Proof. apply heap_alloc_lookup. Qed.

Lemma callHeap_frame st slots l k :
  is_Some (st_heap st !! l) →
  getv (callHeap st slots) (VObj l) k = getv (st_heap st) (VObj l) k.
Proof. intros Hl. by apply getv_heap_alloc. Qed.

Lemma callHeap_previousIntent st slots attrs X :
  previousIntentIs attrs X (st_heap st) → previousIntentIs attrs X (callHeap st slots).
Proof.
  intros [Hsome HX]. split.
  - by apply heap_alloc_allocated.
  - rewrite <- HX. by apply getv_heap_alloc.
Qed.

(** The arguments of the call, first to last. *)
Lemma callHandler_arguments f slots attrs app data st :
  ∃ tail rest,
    st_trace (callHandler f slots attrs app data st).2
    = st_trace st
      ++ ECall f (AVal (VObj (slotsLoc st slots)) :: AVal (VObj attrs) :: AData data :: tail)
           (callHeap st slots)
      :: rest ∧
    tail = (if (h_length f <? 3)%nat then [] else [ACallback]) ∧
    Forall is_done_call rest.
Proof.
  destruct (callHandler_trace f slots attrs app data st) as (rest & Hrest & Hdone).
  destruct (h_length f <? 3)%nat; eexists _, rest; (split; [exact Hrest|done]).
Qed.

(** ** [previousIntent] through the transition check *)

Lemma find_elem {A} (f : A → bool) (l : list A) (a : A) :
  List.find f l = Some a → a ∈ l.
Proof.
  intros Hfind. apply find_some in Hfind as [Hin _]. by apply list_elem_of_In.
Qed.

Lemma findAction_elem app h attrs (intent : IntentValue) a :
  findAction app h attrs intent = Some a → a ∈ actions app.
Proof.
  unfold findAction, _find. cbv zeta.
  destruct (List.find (matches _ (name_of intent)) (actions app)) as [a1|] eqn:H1.
  { intros [= <-]. by apply find_elem in H1. }
  destruct (List.find (matches _ (VStr "*")) (actions app)) as [a2|] eqn:H2.
  { intros [= <-]. by apply find_elem in H2. }
  apply find_elem.
Qed.

Lemma setProp_previousIntent attrs v st :
  is_Some (st_heap st !! attrs) →
  ∃ st1, setProp (VObj attrs) previousIntent v st = (Ok tt, st1) ∧
         st_heap st1 = heap_set (st_heap st) attrs previousIntent v ∧
         st_trace st1 = st_trace st ∧ st_pending st1 = st_pending st ∧
         previousIntentIs attrs v (st_heap st1).
Proof.
  intros Hsome. eexists. split; [reflexivity|]. simpl. split_and!; [done..|].
  split.
  - by apply heap_set_allocated.
  - rewrite getv_heap_set. by rewrite decide_True.
Qed.

Lemma actions_empty_length app :
  (length (actions app) =? 0)%nat = true ↔ actions app = [].
Proof.
  rewrite Nat.eqb_eq. split; [|by intros ->].
  by destruct (actions app).
Qed.

Lemma actions_nonempty_length app :
  actions app ≠ [] → (length (actions app) =? 0)%nat = false.
Proof.
  intros Hne. destruct (length (actions app) =? 0)%nat eqn:E; [|done].
  by apply actions_empty_length in E.
Qed.

Lemma extends_well_step attrs X st st1 st' e :
  st_trace st1 = st_trace st ++ e → st_pending st1 = st_pending st →
  Forall (responds_with X) e →
  extends_well attrs X st1 st' → extends_well attrs X st st'.
Proof.
  intros Ht Hp He (HP & evs & tasks & Ht' & Hevs & Hp' & Htasks).
  split; [done|]. exists (e ++ evs), tasks.
  rewrite Ht', Ht, Hp', Hp, app_assoc.
  split_and!; [done|by apply Forall_app|done..].
Qed.

Lemma checkActionsAndHandle_run (intent : IntentValue) slots attrs app handlers data st :
  checkActionsAndHandle intent slots attrs app handlers data st =
  let own slots :=
    setProp (VObj attrs) previousIntent (name_of intent) ;;;
    callHandlerOf (handler_of intent) slots attrs app data in
  if (length (actions app) =? 0)%nat then own slots st
  else
    match findAction app (st_heap st) attrs intent with
    | None => callHandler (defaultActionFail handlers) slots attrs app data st
    | Some a =>
        match a_if a with
        | None => own slots st
        | Some p =>
            match p slots attrs (st_heap st) with
            | (Ok (v, entries), h1) =>
                if truthy v
                then own (leftWith slots entries) (after_if st a slots attrs h1)
                else callHandler (default (defaultActionFail handlers) (a_fail a))
                       (leftWith slots entries) attrs app data
                       (after_if st a slots attrs h1)
            | (Throw e, h1) => (Throw e, after_if st a slots attrs h1)
            end
        end
    end.
Proof.
  unfold checkActionsAndHandle. cbv zeta.
  destruct (length (actions app) =? 0)%nat; [done|].
  unfold bind at 1. unfold get_heap.
  destruct (findAction app (st_heap st) attrs intent) as [a|]; [|done].
  destruct (a_if a) as [p|]; [|done].
  unfold bind at 1. unfold callIf, bind at 1, bind at 1, get_heap, emit. simpl.
  destruct (p slots attrs _) as [[[v entries]|e] h1]; [|done].
  simpl. destruct (truthy v); [done|].
  by destruct (a_fail a).
Qed.

(** The intent's own handler, run: [previousIntent] is written, then the
    handler is called. *)
Lemma own_handler_run (intent : Intent) slots attrs app data st :
  (setProp (VObj attrs) previousIntent (name_of intent) ;;;
   callHandlerOf (handler_of intent) slots attrs app data) st
  = callHandler (intent_handler intent) slots attrs app data
      (with_heap st (heap_set (st_heap st) attrs previousIntent
                       (VStr (intent_name intent)))).
Proof. reflexivity. Qed.

Lemma heap_set_previousIntentIs h attrs v :
  previousIntentIs attrs v (heap_set h attrs previousIntent v).
Proof.
  split.
  - unfold heap_set. rewrite lookup_insert_eq. eauto.
  - rewrite getv_heap_set. by rewrite decide_True.
Qed.

Lemma called_first_call f slots attrs app data st X :
  previousIntentIs attrs X (st_heap st) →
  called_first f attrs X (st_trace st) (callHandler f slots attrs app data st).2.
Proof.
  intros HP.
  destruct (callHandler_trace f slots attrs app data st) as (rest & Hrest & Hdone).
  eexists [], _, (callHeap st slots), rest. split_and!; [exact Hrest|done| | |done].
  - by apply callHeap_previousIntent.
  - by apply (callHandler_answers_at_once f slots attrs app data).
Qed.

Lemma called_first_after f attrs X base trace1 st' pre :
  trace1 = base ++ pre → Forall is_if_call pre →
  called_first f attrs X trace1 st' → called_first f attrs X base st'.
Proof.
  intros -> Hpre (pre' & args & hc & rest & Htr & Hpre' & HX & Hanswer & Hdone).
  exists (pre ++ pre'), args, hc, rest. split_and!; [|by apply Forall_app|done..].
  rewrite Htr. by rewrite <- !app_assoc.
Qed.

(** The intent's own handler is called in a heap in which
    [previousIntent] is the name of the intent, whatever the handler. *)
Lemma own_handler_called_first (intent : Intent) slots attrs app data st :
  called_first (intent_handler intent) attrs (VStr (intent_name intent)) (st_trace st)
    ((setProp (VObj attrs) previousIntent (name_of intent) ;;;
      callHandlerOf (handler_of intent) slots attrs app data) st).2.
Proof.
  rewrite own_handler_run.
  apply (called_first_call _ _ _ _ _ (with_heap st _)). simpl.
  apply heap_set_previousIntentIs.
Qed.

Lemma checkActionsAndHandle_previousIntent (intent : Intent) slots attrs app handlers
    data st :
  is_Some (st_heap st !! attrs) →
  keepsPreviousIntent app handlers →
  let h := st_heap st in
  let X := getv h (VObj attrs) previousIntent in
  let st' := (checkActionsAndHandle intent slots attrs app handlers data st).2 in
  (ownHandlerSelected app h slots attrs intent →
   (∀ X, handler_respects (previousIntentIs attrs X) (intent_handler intent)) →
   extends_well attrs (VStr (intent_name intent)) st st' ∧
   called_first (intent_handler intent) attrs (VStr (intent_name intent))
     (st_trace st) st') ∧
  (fallbackSelected app h slots attrs intent →
   extends_well attrs X st st' ∧
   ∃ f, fallbackHandler app handlers f ∧ called_first f attrs X (st_trace st) st').
Proof.
  intros Hsome Hkeep h X st'.
  assert (∀ sl st0, is_Some (st_heap st0 !! attrs) →
            (∀ X, handler_respects (previousIntentIs attrs X) (intent_handler intent)) →
            extends_well attrs (VStr (intent_name intent)) st0
              ((setProp (VObj attrs) previousIntent (name_of intent) ;;;
                callHandlerOf (handler_of intent) sl attrs app data) st0).2) as Hrun_own.
  { intros sl st0 Hsome0 Hown.
    destruct (setProp_previousIntent attrs (VStr (intent_name intent)) st0 Hsome0)
      as (st1 & Hset & _ & Ht & Hp & HP).
    unfold bind. cbn [name_of handler_of registered callHandlerOf]. rewrite Hset.
    eapply (extends_well_step _ _ st0 st1 _ []); [by rewrite app_nil_r|done|done|].
    by apply callHandler_extends_well. }
  assert (∀ f sl st0, handler_respects (previousIntentIs attrs X) f →
            previousIntentIs attrs X (st_heap st0) →
            extends_well attrs X st0 (callHandler f sl attrs app data st0).2 ∧
            called_first f attrs X (st_trace st0) (callHandler f sl attrs app data st0).2)
    as Hrun_fallback.
  { intros f sl st0 Hf HP. split; [by apply callHandler_extends_well|].
    by apply called_first_call. }
  subst st'. rewrite checkActionsAndHandle_run. cbv zeta. fold h.
  unfold ownHandlerSelected, fallbackSelected.
  destruct (length (actions app) =? 0)%nat eqn:Hlen.
  { apply actions_empty_length in Hlen. split.
    - intros _ Hown. split; [by apply Hrun_own|apply own_handler_called_first].
    - by intros [Hne _]. }
  assert (actions app ≠ []) as Hne.
  { intros Hnil. apply actions_empty_length in Hnil. congruence. }
  destruct (findAction app h attrs intent) as [a|] eqn:Hfind.
  2: { split.
       - intros [?|(a & ? & _)]; [done|congruence].
       - intros _.
         destruct (Hrun_fallback (defaultActionFail handlers) slots st) as [H1 H2];
           [apply (Hkeep attrs)|done|].
         split; [done|]. exists (defaultActionFail handlers). split; [by left|done]. }
  pose proof (findAction_elem _ _ _ _ _ Hfind) as Hin.
  destruct (Hkeep attrs X) as (_ & _ & Hdefault & _ & Hactions).
  destruct (Hactions a Hin) as [Hfail Hif].
  destruct (a_if a) as [p|] eqn:Hp.
  2: { split.
       - intros _ Hown. split; [by apply Hrun_own|apply own_handler_called_first].
       - intros (_ & [?|(a' & p' & v & en & h' & ? & ? & _)]); congruence. }
  pose proof (Hif p eq_refl slots attrs h (conj Hsome eq_refl)) as HP1.
  destruct (p slots attrs h) as [[[v entries]|e] h1] eqn:Hpred; simpl in HP1.
  2: { split.
       - intros [?|(a' & ? & [?|(p' & v & en & h' & ? & ? & _)])]; congruence.
       - intros (_ & [?|(a' & p' & v & en & h' & ? & ? & ? & _)]); congruence. }
  destruct (truthy v) eqn:Hv.
  - split.
    + intros _ Hown. split.
      * eapply (extends_well_step _ _ st (after_if st a slots attrs h1) _
                  [EIf a slots attrs h]); [done|done|by apply Forall_singleton|].
        apply Hrun_own; [apply HP1|done].
      * eapply (called_first_after _ _ _ _ _ _ [EIf a slots attrs h]);
          [|by apply Forall_singleton|
           apply (own_handler_called_first intent _ _ _ _ (after_if st a slots attrs h1))].
        done.
    + intros (_ & [?|(a' & p' & v' & en & h' & ? & ? & ? & ?)]); congruence.
  - split.
    + intros [?|(a' & ? & [?|(p' & v' & en & h' & ? & ? & ?)])]; congruence.
    + intros _.
      assert (handler_respects (previousIntentIs attrs X)
                (default (defaultActionFail handlers) (a_fail a))) as Hf.
      { destruct (a_fail a) as [f|]; simpl; auto. }
      destruct (Hrun_fallback _ (leftWith slots entries)
                  (after_if st a slots attrs h1) Hf HP1) as [H1 H2].
      split.
      * eapply (extends_well_step _ _ st (after_if st a slots attrs h1) _
                  [EIf a slots attrs h]); [done|done|by apply Forall_singleton|done].
      * exists (default (defaultActionFail handlers) (a_fail a)). split.
        -- destruct (a_fail a) as [f|] eqn:Hfl; simpl; [right; eauto|by left].
        -- eapply (called_first_after _ _ _ _ _ _ [EIf a slots attrs h]);
             [|by apply Forall_singleton|exact H2]. done.
Qed.

(** ** [previousIntent] through the dispatcher *)

Lemma sessionBootstrap_facts data st data1 attrs st1 :
  sessionBootstrap data st = (Ok (data1, attrs), st1) →
  (∀ l, s_new (session data) = false → s_attributes (session data) = Some l →
        is_Some (st_heap st !! l)) →
  request data1 = request data ∧
  st_trace st1 = st_trace st ∧
  st_pending st1 = st_pending st ∧
  previousIntentIs attrs (carriedPreviousIntent data (st_heap st)) (st_heap st1).
Proof.
  unfold sessionBootstrap, carriedPreviousIntent, previousIntentIs.
  destruct (s_new (session data)); [|destruct (s_attributes (session data)) as [l|]];
    intros [= <- <- <-] Hin; simpl; split_and!; try done.
  - eexists. exact (proj2 (heap_alloc_lookup (st_heap st) _)).
  - exact (getv_heap_alloc_new (st_heap st) _ previousIntent).
  - by apply Hin.
  - eexists. exact (proj2 (heap_alloc_lookup (st_heap st) _)).
  - exact (getv_heap_alloc_new (st_heap st) _ previousIntent).
Qed.

Lemma sessionBootstrap_request data st data1 attrs st1 :
  sessionBootstrap data st = (Ok (data1, attrs), st1) → request data1 = request data.
Proof.
  unfold sessionBootstrap.
  destruct (s_new (session data)); [|destruct (s_attributes (session data))];
    by intros [= <- <- <-].
Qed.

Lemma handleRequest_run app data handlers st :
  handleRequest app data handlers st =
  let appId := applicationId (s_application (session data)) in
  if rejectsAppId app appId then
    (Throw (Parsed (parseError
       (mkError ("Application id: '" +:+ appId +:+ "' is not valid")))), st)
  else
    match sessionBootstrap data st with
    | (Ok (data1, attrs), st1) =>
        let requestType := r_type (request data1) in
        if String.eqb requestType "LaunchRequest" then
          callHandler (onStart handlers) None attrs app data1 st1
        else if String.eqb requestType "IntentRequest" then
          match r_intent (request data1) with
          | None => (Throw TypeError, st1)
          | Some i =>
              match intentsGet app (i_name i) with
              | None =>
                  (Throw (Parsed (parseError
                     (mkError ("Nonexistent intent: '" +:+ i_name i +:+ "'")))), st1)
              | Some intent =>
                  checkActionsAndHandle intent (i_slots i) attrs app handlers data1 st1
              end
          end
        else if String.eqb requestType "SessionEndedRequest" then
          callHandler (onEnd handlers) None attrs app data1 st1
        else
          (Throw (Parsed (parseError
             (mkError ("Unsupported request: '" +:+ requestType +:+ "'")))), st1)
    | (Throw e, st1) => (Throw e, st1)
    end.
Proof.
  unfold handleRequest. cbv zeta.
  destruct (rejectsAppId app _); [done|].
  unfold bind at 1.
  destruct (sessionBootstrap data st) as [[[data1 attrs]|e] st1]; [|done].
  repeat (destruct (String.eqb _ _); [try done|]); [|done].
  destruct (r_intent (request data1)) as [i|]; [|done].
  by destruct (intentsGet app (i_name i)).
Qed.

(** The dispatch of an [IntentRequest] that passes the validation. *)
Lemma handleRequest_intent app data handlers st data1 attrs st1 i intent :
  rejectsAppId app (applicationId (s_application (session data))) = false →
  sessionBootstrap data st = (Ok (data1, attrs), st1) →
  r_type (request data) = "IntentRequest" →
  r_intent (request data) = Some i →
  intentsGet app (i_name i) = Some intent →
  handleRequest app data handlers st
  = checkActionsAndHandle intent (i_slots i) attrs app handlers data1 st1.
Proof.
  intros Hrej Hboot Hty Hi Hintent.
  rewrite handleRequest_run. cbv zeta.
  rewrite Hrej, Hboot, (sessionBootstrap_request _ _ _ _ _ Hboot), Hty, Hi. simpl.
  by rewrite Hintent.
Qed.

Lemma intentsGet_registered app name intent :
  intents app !! name = Some intent → intentsGet app name = Some (registered intent).
Proof. intros Hintent. unfold intentsGet. by rewrite Hintent. Qed.


Lemma handler_ran_intro f attrs X base st' :
  called_first f attrs X base st' → well_kept attrs X base st' →
  handler_ran f attrs X base st'.
Proof.
  intros (pre & args & hc & rest & Htr & Hpre & HX & Hanswer & Hdone)
         ([_ HP] & (evs & Hevs & Hall) & _).
  exists pre, args, hc, rest. split_and!; try done.
  rewrite Htr in Hevs. apply app_inv_head in Hevs. subst evs.
  apply Forall_app in Hall as [_ Hall]. by apply Forall_cons in Hall as [_ Hall].
Qed.

Lemma called_first_later f attrs X base st n :
  called_first f attrs X base st → called_first f attrs X base (turns n st).
Proof.
  intros (pre & args & hc & rest & Htr & Hpre & HX & Hanswer & Hdone).
  destruct (turns_trace n st) as (more & Hmore & Hdone').
  exists pre, args, hc, (rest ++ more). split_and!; [|done|done| |by apply Forall_app].
  - rewrite Hmore, Htr. by rewrite <- !app_assoc.
  - intros o h2 Hlen Hbody Hsyn.
    destruct (Hanswer o h2 Hlen Hbody Hsyn) as (resp & hd & rest' & ->).
    by exists resp, hd, (rest' ++ more).
Qed.

(** C1, amended: [sessionAttributes.previousIntent] reflects the last
    intent whose handler ran, as long as the application's functions do
    not write [previousIntent] themselves.  For a [LaunchRequest], a
    [SessionEndedRequest] and an [IntentRequest] for a registered intent,
    from an application id that is not refused, the pipeline calls one
    handler, after at most the [if] function of an action, and after it
    nothing but [done].  When the intent's own handler was selected,
    that handler is the one called, [previousIntent] of the attributes is
    the name of the intent when it is called and when the pipeline is
    through, a response is handed to [done] at once when the handler
    returns options from which one is built, and every response handed to
    [done], in the dispatch or in any later turn of the event loop, carries
    that name.  When a fallback handler was selected, or the request is a
    [LaunchRequest] or a [SessionEndedRequest], the same holds of the
    handler called and the value the request brought, which is ["@start"]
    for a new session. *)
Theorem previousIntent_reflects_last_handled_intent app data handlers st n
    data1 attrs st1 :
  keepsPreviousIntent app handlers →
  st_pending st = [] →
  (∀ l, s_new (session data) = false → s_attributes (session data) = Some l →
        is_Some (st_heap st !! l)) →
  rejectsAppId app (applicationId (s_application (session data))) = false →
  sessionBootstrap data st = (Ok (data1, attrs), st1) →
  let st' := turns n (handleRequest app data handlers st).2 in
  let carried := carriedPreviousIntent data (st_heap st) in
  (s_new (session data) = true → carried = VStr "@start") ∧
  (r_type (request data) = "LaunchRequest" →
   handler_ran (onStart handlers) attrs carried (st_trace st) st') ∧
  (r_type (request data) = "SessionEndedRequest" →
   handler_ran (onEnd handlers) attrs carried (st_trace st) st') ∧
  (∀ i (intent : Intent),
     r_type (request data) = "IntentRequest" →
     r_intent (request data) = Some i →
     intents app !! i_name i = Some intent →
     (ownHandlerSelected app (st_heap st1) (i_slots i) attrs intent →
      handler_ran (intent_handler intent) attrs (VStr (intent_name intent))
        (st_trace st) st') ∧
     (fallbackSelected app (st_heap st1) (i_slots i) attrs intent →
      ∃ f, fallbackHandler app handlers f ∧
           handler_ran f attrs carried (st_trace st) st')).
Proof.
  intros Hkeep Hidle Hin Hrej Hboot st' carried.
  destruct (sessionBootstrap_facts _ _ _ _ _ Hboot Hin) as (Hreq & Htr & Hpe & HP).
  fold carried in HP.
  split; [by unfold carried, carriedPreviousIntent; intros ->|].
  assert (∀ f X st2, extends_well attrs X st1 st2 →
            called_first f attrs X (st_trace st1) st2 →
            handler_ran f attrs X (st_trace st) (turns n st2)) as Hfinish.
  { intros f X st2 (HP2 & evs & tasks & Ht2 & Hevs & Hp2 & Htasks) Hcalled.
    apply handler_ran_intro.
    - rewrite <- Htr. by apply called_first_later.
    - apply turns_well_kept. split_and!; [done| |].
      + exists evs. by rewrite Ht2, Htr.
      + by rewrite Hp2, Hpe, Hidle. }
  assert (∀ f, handler_respects (previousIntentIs attrs carried) f →
            handler_ran f attrs carried (st_trace st)
              (turns n (callHandler f None attrs app data1 st1).2)) as Hdirect.
  { intros f Hf. apply Hfinish; [by apply callHandler_extends_well|].
    by apply called_first_call. }
  subst st'. rewrite handleRequest_run. cbv zeta. rewrite Hrej, Hboot, Hreq.
  split_and!.
  - intros ->. simpl. apply Hdirect, (Hkeep attrs).
  - intros ->. simpl. apply Hdirect, (Hkeep attrs).
  - intros i intent Hty Hi Hintent.
    rewrite Hty, Hi, (intentsGet_registered _ _ _ Hintent). simpl.
    assert (∀ X, handler_respects (previousIntentIs attrs X) (intent_handler intent))
      as Hown.
    { intros X. by apply (Hkeep attrs X) in Hintent. }
    destruct (checkActionsAndHandle_previousIntent intent (i_slots i) attrs app
                handlers data1 st1 (proj1 HP) Hkeep) as [H1 H2].
    destruct HP as [_ <-].
    split; intros Hsel.
    + destruct (H1 Hsel Hown) as [Hext Hcalled]. by apply Hfinish.
    + destruct (H2 Hsel) as (Hext & f & Hf & Hcalled). exists f. split; [done|].
      by apply Hfinish.
Qed.

(** ** The calling convention *)


(** ** Fallback handlers *)

Lemma callHandler_falls_back f slots attrs app data st :
  falls_back f attrs (st_heap st) (st_trace st) (callHandler f slots attrs app data st).2.
Proof.
  destruct (callHandler_trace f slots attrs app data st) as (rest & Hrest & Hdone).
  eexists _, (callHeap st slots), rest. split_and!; [exact Hrest|done| | |].
  - intros l k Hl. by apply callHeap_frame.
  - intros o h2 Hlen%Nat.ltb_lt. rewrite Hlen. intros Hbody Hsome.
    rewrite callHandler_sync by done. cbv zeta. rewrite Hbody. simpl.
    apply (optionsReady_extends_well attrs (getv h2 (VObj attrs) previousIntent)
             (closureOf st slots attrs app) o
             (with_heap (called st slots f (syncArgs st slots attrs data)) h2)); done.
  - intros X Hf HP.
    destruct (callHandler_extends_well attrs X f slots app data st Hf HP)
      as (HP' & evs & tasks & Ht & Hevs & _).
    split; [done|]. rewrite Hrest in Ht. apply app_inv_head in Ht. subst evs.
    by apply Forall_cons in Hevs as [_ Hevs].
Qed.

(** C4: the fallback handlers, for an application that has actions.  When
    the action found has an [if] that answers a falsy value, the call of
    the [if] function is followed by the call of the action's [fail]
    handler, or of [handlers.defaultActionFail] when the action has none;
    when no action is found, [handlers.defaultActionFail] is the first call
    made.  No other handler is called: what follows are calls of [done].
    The pipeline has written nothing by then: in the heap in which the fallback
    handler is called, every object there was reads as the [if] function
    left it (as it was, when no action is found), [previousIntent] of the
    attributes included.  Nor does it afterwards: when the fallback handler
    returns its options, the attributes hold, once the response is built,
    the [previousIntent] the handler left them with; and a fallback handler
    that does not write [previousIntent] itself leaves the value it found
    in the attributes and in every response handed to [done]. *)
Theorem fallback_handler_keeps_previousIntent (intent : IntentValue) slots attrs app
    handlers data st :
  actions app ≠ [] →
  let h := st_heap st in
  let out := (checkActionsAndHandle intent slots attrs app handlers data st).2 in
  (∀ a p v entries h1,
     findAction app h attrs intent = Some a → a_if a = Some p →
     p slots attrs h = (Ok (v, entries), h1) → truthy v = false →
     (∀ f, a_fail a = Some f →
           falls_back f attrs h1 (st_trace st ++ [EIf a slots attrs h]) out) ∧
     (a_fail a = None →
      falls_back (defaultActionFail handlers) attrs h1
        (st_trace st ++ [EIf a slots attrs h]) out)) ∧
  (findAction app h attrs intent = None →
   falls_back (defaultActionFail handlers) attrs h (st_trace st) out).
Proof.
  intros Hne%actions_nonempty_length h out. split.
  - intros a p v entries h1 Hfind Hif Hp Hv.
    assert (out = (callHandler (default (defaultActionFail handlers) (a_fail a))
                     (leftWith slots entries) attrs app data
                     (after_if st a slots attrs h1)).2) as ->.
    { subst out. rewrite checkActionsAndHandle_run. cbv zeta. fold h.
      by rewrite Hne, Hfind, Hif, Hp, Hv. }
    split.
    + intros f ->. apply (callHandler_falls_back f _ _ _ _ (after_if st a slots attrs h1)).
    + intros ->.
      apply (callHandler_falls_back _ _ _ _ _ (after_if st a slots attrs h1)).
  - intros Hfind.
    assert (out = (callHandler (defaultActionFail handlers) slots attrs app data st).2)
      as ->.
    { subst out. rewrite checkActionsAndHandle_run. cbv zeta. fold h.
      by rewrite Hne, Hfind. }
    apply callHandler_falls_back.
Qed.

(** ** The two views of the slots *)





(** ** The attributes of the response *)

(** C6: the attributes of the response.  When the options supply an
    object as [attrs], the response carries that very object, on which
    [previousIntent] now reads what the carried attributes hold, whatever
    it read before, and on which every other property reads as before
    (save [type], if the same object is also the card); when the options
    supply no [attrs], the response carries the carried attributes object
    itself, every property of which reads as before (unless the object is
    also the card).  The options are assumed to hold no card, or an object
    as card, so that a response is built. *)
Theorem createResponse_session_attributes opts slots attrs app st :
  let h := st_heap st in
  absent_or_object (getv h opts "card") →
  (∀ la, getv h opts "attrs" = VObj la → is_Some (h !! la) →
     ∃ resp st',
       createResponse opts slots attrs app st = (Ok resp, st') ∧
       sessionAttributes resp = VObj la ∧
       getv (st_heap st') (VObj la) previousIntent = getv h (VObj attrs) previousIntent ∧
       (∀ k, k ≠ previousIntent → ¬ (getv h opts "card" = VObj la ∧ k = "type") →
             getv (st_heap st') (VObj la) k = getv h (VObj la) k)) ∧
  (truthy (getv h opts "attrs") = false → opts ≠ VUndef → opts ≠ VNull →
     ∃ resp st',
       createResponse opts slots attrs app st = (Ok resp, st') ∧
       sessionAttributes resp = VObj attrs ∧
       (is_Some (h !! attrs) → getv h opts "card" ≠ VObj attrs →
        ∀ k, getv (st_heap st') (VObj attrs) k = getv h (VObj attrs) k)).
Proof.
  intros h Hcard.
  pose proof (createResponse_writes opts slots attrs app st) as (_ & _ & _ & Hframe).
  fold h in Hframe. split.
  - intros la Hla Hsome.
    assert (opts ≠ VUndef ∧ opts ≠ VNull) as [Hu Hn].
    { split; intros ->; by rewrite getv_primitive in Hla. }
    destruct (createResponse_succeeds opts slots attrs app st Hu Hn) as (resp & st' & Hrun & Hsa);
      [right; eauto|done|].
    fold h in Hsa. rewrite Hla in Hsa. simpl in Hsa.
    exists resp, st'. rewrite Hrun in Hframe. simpl in Hframe. split_and!; [done..| |].
    + destruct opts as [| | | | |lo]; try by rewrite getv_primitive in Hla.
      pose proof (createResponse_object_previousIntent lo slots attrs app st) as Hprev.
      cbv zeta in Hprev. rewrite Hrun in Hprev. destruct Hprev as [_ Hprev].
      rewrite <- Hsa. by apply Hprev.
    + intros k Hk Hcardk. apply Hframe; [done|].
      intros [[_ ->]|(Hc & -> & _)]; [done|]. by apply Hcardk.
  - intros Hattrs Hu Hn.
    destruct (createResponse_succeeds opts slots attrs app st Hu Hn) as (resp & st' & Hrun & Hsa);
      [by left|done|].
    fold h in Hsa. rewrite Hattrs in Hsa.
    exists resp, st'. rewrite Hrun in Hframe. simpl in Hframe. split_and!; [done..|].
    intros Hsome Hne k. apply Hframe; [done|].
    intros [[Ha _]|(Hc & _)]; [|done].
    rewrite Ha in Hattrs. done.
Qed.

(** C8, amended: what the synthesis writes.  From the state it starts in
    to the state it leaves, [createResponse] calls nothing and schedules
    nothing, and every property of every object there was reads as before,
    except [previousIntent] on the object supplied as [options.attrs] and
    [type] on the object supplied as [options.card] when that object had
    no truthy [type].  So the options object and the carried attributes
    object read as before unless they are themselves that [attrs] or
    [card] object. *)
Theorem createResponse_writes_only_supplied_attrs_and_card opts slots attrs app st :
  let h := st_heap st in
  let st' := (createResponse opts slots attrs app st).2 in
  unchanged_outside (synthesisWrites h opts) st st' ∧
  (∀ lo, opts = VObj lo → is_Some (h !! lo) →
         getv h opts "attrs" ≠ VObj lo → getv h opts "card" ≠ VObj lo →
         ∀ k, getv (st_heap st') (VObj lo) k = getv h (VObj lo) k) ∧
  (is_Some (h !! attrs) →
   getv h opts "attrs" ≠ VObj attrs → getv h opts "card" ≠ VObj attrs →
   ∀ k, getv (st_heap st') (VObj attrs) k = getv h (VObj attrs) k).
Proof.
  intros h st'.
  pose proof (createResponse_writes opts slots attrs app st) as Hframe.
  split; [done|].
  destruct Hframe as (_ & _ & _ & Hframe).
  split.
  - intros lo _ Hsome Ha Hc k. apply Hframe; [done|].
    by intros [[? _]|[? _]].
  - intros Hsome Ha Hc k. apply Hframe; [done|].
    by intros [[? _]|[? _]].
Qed.

(** ** The version of the response *)

Lemma createResponse_version opts slots attrs app st resp st' :
  createResponse opts slots attrs app st = (Ok resp, st') →
  resp_version resp = responseVersion app.
Proof.
  assert (∀ lo st0, createResponse (VObj lo) slots attrs app st0 = (Ok resp, st') →
            resp_version resp = responseVersion app) as Hobj.
  { intros lo st0. rewrite createResponse_object. cbv zeta.
    destruct (responseSessionAttributes _ _ _) as [[sa|e] st1]; [|done].
    destruct (createCardObject _ _) as [[c|e] st2]; [|done].
    by intros [= <- _]. }
  destruct opts as [| |b|n|s|lo].
  - by rewrite createResponse_undefined by eauto.
  - by rewrite createResponse_undefined by eauto.
  - rewrite createResponse_primitive by eauto. by intros [= <- _].
  - rewrite createResponse_primitive by eauto. by intros [= <- _].
  - rewrite createResponse_string. destruct (heap_alloc _ _) as [l h1]. apply Hobj.
  - apply Hobj.
Qed.

(** ** The sample application keeps [previousIntent] *)

Lemma says_respects (P : heap → Prop) text : handler_respects P (says text).
Proof. intros args h HP. by constructor. Qed.

Lemma answersLater_respects (P : heap → Prop) text :
  handler_respects P (answersLater text).
Proof.
  intros args h HP. constructor; [done|].
  intros h1 HP1. constructor; [done|].
  intros r h2 HP2. by constructor.
Qed.

Lemma sample_keepsPreviousIntent : keepsPreviousIntent sample_app sample_handlers.
Proof.
  intros attrs X P. split_and!; try apply says_respects.
  - intros n i Hi. unfold sample_app in Hi. simpl in Hi.
    apply lookup_insert_Some in Hi as [[_ <-]|[_ Hi]]; [apply says_respects|].
    apply lookup_singleton_Some in Hi as [_ <-]. apply answersLater_respects.
  - intros a Ha. unfold sample_app in Ha. simpl in Ha.
    apply elem_of_cons in Ha as [->|Ha]; [by split|].
    apply elem_of_cons in Ha as [->|Ha]; [|by apply elem_of_nil in Ha].
    split.
    + intros f [= <-]. apply says_respects.
    + intros p [= <-] slots attrs' h HP. done.
Qed.

(** * Further properties of the pipeline *)

(** ** The fields of the response *)

Lemma getv_text_object (h : heap) (l : loc) (s : string) (k : string) :
  h !! l = Some {[ "text" := VStr s ]} →
  getv h (VObj l) k = optionField h (VStr s) k.
Proof.
  intros Hl. unfold getv, obj_at, obj_get, optionField. rewrite Hl. simpl.
  destruct (decide (k = "text")) as [->|Hk].
  - by rewrite lookup_singleton_eq.
  - by rewrite lookup_singleton_ne.
Qed.

Lemma createResponse_object_fields lo slots attrs app st resp st' :
  createResponse (VObj lo) slots attrs app st = (Ok resp, st') →
  let f := getv (st_heap st) (VObj lo) in
  outputSpeech (response resp) = createOutputSpeechObject (f "text") (f "ssml") ∧
  shouldEndSession (response resp)
  = (if decide (f "end" = VUndef) then VBool true else f "end") ∧
  reprompt (response resp)
  = (if truthy (f "reprompt")
     then Some (createOutputSpeechObject (f "reprompt") (f "ssml")) else None) ∧
  card (response resp) = (if truthy (f "card") then Some (f "card") else None).
Proof.
  intros Hrun f. rewrite createResponse_object in Hrun. cbv zeta in Hrun.
  pose proof (λ k, responseSessionAttributes_keeps lo attrs st (VObj lo) k) as Hk.
  destruct (responseSessionAttributes (VObj lo) attrs st) as [[sa|e] st1]; [|done].
  simpl in Hk. rewrite !Hk in Hrun by done. fold f in Hrun.
  rewrite createCardObject_run in Hrun.
  destruct (truthy (f "card")) eqn:Hcard.
  - destruct (f "card") as [| | | | |lc]; try done.
    destruct (truthy (getv (st_heap st1) (VObj lc) "type"));
      by injection Hrun as <- _.
  - by injection Hrun as <- _.
Qed.

Lemma createResponse_fields opts slots attrs app st resp st' :
  createResponse opts slots attrs app st = (Ok resp, st') →
  let f := optionField (st_heap st) opts in
  outputSpeech (response resp) = createOutputSpeechObject (f "text") (f "ssml") ∧
  shouldEndSession (response resp)
  = (if decide (f "end" = VUndef) then VBool true else f "end") ∧
  reprompt (response resp)
  = (if truthy (f "reprompt")
     then Some (createOutputSpeechObject (f "reprompt") (f "ssml")) else None) ∧
  card (response resp) = (if truthy (f "card") then Some (f "card") else None).
Proof.
  destruct opts as [| |b|n|s|lo]; intros Hrun.
  - by rewrite createResponse_undefined in Hrun by eauto.
  - by rewrite createResponse_undefined in Hrun by eauto.
  - rewrite createResponse_primitive in Hrun by eauto. by injection Hrun as <- _.
  - rewrite createResponse_primitive in Hrun by eauto. by injection Hrun as <- _.
  - rewrite createResponse_string in Hrun.
    pose proof (heap_alloc_lookup (st_heap st) {[ "text" := VStr s ]}) as [_ Hnew].
    destruct (heap_alloc (st_heap st) _) as [l h1]. simpl in Hnew.
    pose proof (createResponse_object_fields _ _ _ _ _ _ _ Hrun) as Hfields.
    cbv zeta in Hfields. simpl in Hfields.
    rewrite !(getv_text_object h1 l s) in Hfields by done.
    exact Hfields.
  - exact (createResponse_object_fields _ _ _ _ _ _ _ Hrun).
Qed.

(** X1: the speech of the response.  One flag, [options.ssml], decides
    the form of both the output speech and the reprompt: plain text when
    it is falsy, SSML when it is truthy, the SSML being what [options.text]
    (or [options.reprompt]) holds.  A reprompt is there exactly when
    [options.reprompt] is truthy, and a string given for the options is
    spoken as plain text without reprompt. *)
Theorem response_speech_follows_ssml_flag opts slots attrs app st resp st' :
  createResponse opts slots attrs app st = (Ok resp, st') →
  let f := optionField (st_heap st) opts in
  (truthy (f "ssml") = false →
   outputSpeech (response resp) = PlainText (f "text") ∧
   reprompt (response resp)
   = if truthy (f "reprompt") then Some (PlainText (f "reprompt")) else None) ∧
  (truthy (f "ssml") = true →
   outputSpeech (response resp) = SSML (f "text") ∧
   reprompt (response resp)
   = if truthy (f "reprompt") then Some (SSML (f "reprompt")) else None) ∧
  (∀ s, opts = VStr s →
        outputSpeech (response resp) = PlainText (VStr s) ∧
        reprompt (response resp) = None).
Proof.
  intros Hrun f.
  destruct (createResponse_fields _ _ _ _ _ _ _ Hrun) as (Hspeech & _ & Hreprompt & _).
  fold f in Hspeech, Hreprompt. rewrite Hspeech, Hreprompt.
  unfold createOutputSpeechObject. split_and!.
  - by intros ->.
  - by intros ->.
  - by intros s ->.
Qed.

(** X2: the end of the session.  [shouldEndSession] is [true] when the
    options hold no [end] (in particular for options that are not an
    object: a string, a number, a boolean), and otherwise [options.end] as
    it is, not made a boolean: [null], [0] and [false] are passed on. *)
Theorem response_ends_session_unless_told opts slots attrs app st resp st' :
  createResponse opts slots attrs app st = (Ok resp, st') →
  let e := optionField (st_heap st) opts "end" in
  (e = VUndef → shouldEndSession (response resp) = VBool true) ∧
  (e ≠ VUndef → shouldEndSession (response resp) = e) ∧
  ((∀ l, opts ≠ VObj l) → shouldEndSession (response resp) = VBool true).
Proof.
  intros Hrun e.
  destruct (createResponse_fields _ _ _ _ _ _ _ Hrun) as (_ & Hend & _).
  fold e in Hend. rewrite Hend. split_and!.
  - intros He. by rewrite decide_True.
  - intros He. by rewrite decide_False.
  - intros Hopts. rewrite decide_True; [done|].
    unfold e, optionField. destruct opts as [| | | | |l]; try done.
    by destruct (Hopts l).
Qed.

Lemma createResponse_object_card_type lo slots attrs app st resp st' lc :
  createResponse (VObj lo) slots attrs app st = (Ok resp, st') →
  getv (st_heap st) (VObj lo) "card" = VObj lc →
  getv (st_heap st') (VObj lc) "type"
  = (if truthy (getv (st_heap st) (VObj lc) "type")
     then getv (st_heap st) (VObj lc) "type" else VStr "Simple") ∧
  ∀ v k, k ≠ "type" → k ≠ previousIntent →
         getv (st_heap st') v k = getv (st_heap st) v k.
Proof.
  intros Hrun Hcard. rewrite createResponse_object in Hrun. cbv zeta in Hrun.
  pose proof (λ v k, responseSessionAttributes_keeps lo attrs st v k) as Hk.
  destruct (responseSessionAttributes (VObj lo) attrs st) as [[sa|e] st1]; [|done].
  simpl in Hk. rewrite (Hk (VObj lo) "card") in Hrun by done. rewrite Hcard in Hrun.
  pose proof (λ v k, createCardObject_keeps (VObj lc) st1 v k) as Hk'.
  rewrite createCardObject_run in Hrun, Hk'. simpl in Hrun, Hk'.
  rewrite <- (Hk (VObj lc) "type") by done.
  destruct (truthy (getv (st_heap st1) (VObj lc) "type")) eqn:Hty;
    injection Hrun as _ <-; simpl in *.
  - split; [done|]. intros v k _ Hp. by apply Hk.
  - split.
    + rewrite getv_heap_set. by rewrite decide_True.
    + intros v k Ht Hp. rewrite Hk' by done. by apply Hk.
Qed.

(** X3: the card of the response.  Without a truthy [options.card] the
    response has no card.  With an object as card, the response carries
    that very object, and the object has a truthy [type] afterwards: the
    one it had, or ["Simple"], written on it, when it had none; nothing
    else of the card changes (but [previousIntent], when the card is also
    the supplied attributes). *)
Theorem response_card_gets_default_type opts slots attrs app st resp st' :
  createResponse opts slots attrs app st = (Ok resp, st') →
  let h := st_heap st in
  let c := optionField h opts "card" in
  (truthy c = false → card (response resp) = None) ∧
  (∀ lc, c = VObj lc →
     card (response resp) = Some (VObj lc) ∧
     getv (st_heap st') (VObj lc) "type"
     = (if truthy (getv h (VObj lc) "type") then getv h (VObj lc) "type"
        else VStr "Simple") ∧
     truthy (getv (st_heap st') (VObj lc) "type") = true ∧
     ∀ k, k ≠ "type" → k ≠ previousIntent →
          getv (st_heap st') (VObj lc) k = getv h (VObj lc) k).
Proof.
  intros Hrun h c.
  destruct (createResponse_fields _ _ _ _ _ _ _ Hrun) as (_ & _ & _ & Hcard).
  fold h c in Hcard. rewrite Hcard. split.
  - by intros ->.
  - intros lc Hc. rewrite Hc. simpl. split; [done|].
    assert (∃ lo, opts = VObj lo) as [lo ->].
    { unfold c, optionField in Hc.
      destruct opts as [| | | |s|lo]; try done; try (by eauto); by destruct (decide _). }
    destruct (createResponse_object_card_type _ _ _ _ _ _ _ lc Hrun Hc) as [Hty Hother].
    fold h in Hty. split_and!; [done| |by intros; apply Hother].
    rewrite Hty. by destruct (truthy (getv h (VObj lc) "type")) eqn:E.
Qed.

(** ** When the response builder throws *)

Lemma absent_or_object_cases v :
  absent_or_object v ∨ (truthy v = true ∧ ∀ l, v ≠ VObj l).
Proof.
  destruct (truthy v) eqn:Hv; [|by left; left].
  destruct v as [| | | | |l]; try (by right); left; right; eauto.
Qed.

Lemma responseSessionAttributes_outcome lo attrs st :
  match (responseSessionAttributes (VObj lo) attrs st).1 with
  | Ok _ => absent_or_object (getv (st_heap st) (VObj lo) "attrs")
  | Throw e =>
      e = TypeError ∧ ¬ absent_or_object (getv (st_heap st) (VObj lo) "attrs") ∧
      (responseSessionAttributes (VObj lo) attrs st).2 = st
  end.
Proof.
  rewrite responseSessionAttributes_run. cbv zeta.
  destruct (truthy _) eqn:Hoa; [|by left].
  destruct (getv (st_heap st) (VObj lo) "attrs") as [| | | | |la]; simpl;
    try (split_and!; [done| |done]; intros [?|[l ?]]; congruence).
  right. eauto.
Qed.

Lemma createCardObject_outcome c st :
  match (createCardObject c st).1 with
  | Ok _ => absent_or_object c
  | Throw e => e = TypeError ∧ ¬ absent_or_object c ∧ (createCardObject c st).2 = st
  end.
Proof.
  rewrite createCardObject_run.
  destruct (truthy c) eqn:Hc; [|by left].
  destruct c as [| | | | |lc]; simpl;
    try (split_and!; [done| |done]; intros [?|[l ?]]; congruence).
  destruct (truthy (getv (st_heap st) (VObj lc) "type")); simpl; right; eauto.
Qed.

Lemma createResponse_object_outcome lo slots attrs app st :
  match (createResponse (VObj lo) slots attrs app st).1 with
  | Ok _ => synthesizable (st_heap st) (VObj lo)
  | Throw e => e = TypeError ∧ ¬ synthesizable (st_heap st) (VObj lo)
  end.
Proof.
  rewrite createResponse_object. cbv zeta.
  pose proof (responseSessionAttributes_outcome lo attrs st) as Hattrs.
  pose proof (responseSessionAttributes_keeps lo attrs st (VObj lo) "card") as Hk.
  destruct (responseSessionAttributes (VObj lo) attrs st) as [[sa|e] st1];
    simpl in Hattrs, Hk.
  - pose proof (createCardObject_outcome (getv (st_heap st1) (VObj lo) "card") st1)
      as Hcard.
    rewrite Hk in Hcard |- * by done.
    destruct (createCardObject _ st1) as [[c|e] st2]; simpl in Hcard |- *.
    + by split_and!.
    + destruct Hcard as (-> & Hno & _). split; [done|]. by intros (_ & _ & _ & ?).
  - destruct Hattrs as (-> & Hno & _). split; [done|]. by intros (_ & _ & ? & _).
Qed.

(** X4: when a response is built.  [createResponse] builds a response
    exactly from options that are not [undefined] or [null] and in which
    [attrs] and [card] are absent (falsy) or objects; from all other
    options it throws, and what it throws is a [TypeError]. *)
Theorem createResponse_outcome opts slots attrs app st :
  match (createResponse opts slots attrs app st).1 with
  | Ok _ => synthesizable (st_heap st) opts
  | Throw e => e = TypeError ∧ ¬ synthesizable (st_heap st) opts
  end.
Proof.
  destruct opts as [| |b|n|s|lo].
  - rewrite createResponse_undefined by eauto. simpl. split; [done|]. by intros [? _].
  - rewrite createResponse_undefined by eauto. simpl.
    split; [done|]. by intros (_ & ? & _).
  - rewrite createResponse_primitive by eauto. simpl. split_and!; try done; by left.
  - rewrite createResponse_primitive by eauto. simpl. split_and!; try done; by left.
  - destruct (createResponse_succeeds (VStr s) slots attrs app st)
      as (resp & st' & -> & _); try done; try by left.
    simpl. split_and!; try done; by left.
  - apply createResponse_object_outcome.
Qed.

(** X6: a response half built.  When the options supply an object as
    [attrs] and, as [card], a truthy value that is not an object,
    [createResponse] throws a [TypeError] on the card after it has written
    [previousIntent] on the supplied attributes: the write stays. *)
Theorem createResponse_throws_on_card_after_writing_attrs lo slots attrs app st la :
  let h := st_heap st in
  getv h (VObj lo) "attrs" = VObj la →
  truthy (getv h (VObj lo) "card") = true →
  (∀ l, getv h (VObj lo) "card" ≠ VObj l) →
  createResponse (VObj lo) slots attrs app st
  = (Throw TypeError,
     with_heap st (heap_set h la previousIntent (getv h (VObj attrs) previousIntent))).
Proof.
  intros h Hattrs Htruthy Hprim.
  rewrite createResponse_object. cbv zeta.
  rewrite responseSessionAttributes_run. cbv zeta. fold h. rewrite Hattrs. simpl.
  rewrite getv_heap_set_other_key by done. fold h.
  rewrite createCardObject_run, Htruthy.
  destruct (getv h (VObj lo) "card") as [| | | | |l]; try done.
  by destruct (Hprim l).
Qed.

(** X5: a handler that returns nothing.  When a handler with fewer than
    three parameters returns [undefined] or [null], [callHandler] throws a
    [TypeError] after the handler has run: no response is built and [done]
    is not called. *)
Theorem handler_returning_nothing_throws f slots attrs app data st o h2 :
  (h_length f < 3)%nat →
  h_body f (syncArgs st slots attrs data) (callHeap st slots) = HReturn o h2 →
  o = VUndef ∨ o = VNull →
  callHandler f slots attrs app data st
  = (Throw TypeError, with_heap (called st slots f (syncArgs st slots attrs data)) h2).
Proof.
  intros Hlen%Nat.ltb_lt Hbody Ho.
  rewrite callHandler_sync by done. cbv zeta. rewrite Hbody. simpl.
  unfold optionsReady, bind. by rewrite createResponse_undefined.
Qed.

(** ** The normalised slots *)



(** ** The intent's own handler *)

(** X8: what the intent's own handler sees.  When the intent's own
    handler is selected, that handler is the one the pipeline calls,
    after at most the [if] function of the action and before nothing but
    [done], and in the heap in which it is called [previousIntent] of the
    attributes has already been overwritten: it is the name of the intent
    being handled, not the intent handled before, whatever the handler and
    the [if] function do.  When the handler then returns options from
    which a response is built, the response is handed to [done] right
    after the call. *)
Theorem own_handler_sees_its_own_name (intent : Intent) slots attrs app handlers data st :
  ownHandlerSelected app (st_heap st) slots attrs intent →
  called_first (intent_handler intent) attrs (VStr (intent_name intent)) (st_trace st)
    (checkActionsAndHandle intent slots attrs app handlers data st).2.
Proof.
  intros Hown. rewrite checkActionsAndHandle_run. cbv zeta.
  destruct (length (actions app) =? 0)%nat eqn:Hlen; [apply own_handler_called_first|].
  destruct Hown as [Hnil|(a & Hfind & Hif)].
  { apply actions_empty_length in Hnil. congruence. }
  rewrite Hfind.
  destruct Hif as [Hnone|(p & v & entries & h1 & Hp & Hpred & Hv)].
  - rewrite Hnone. apply own_handler_called_first.
  - rewrite Hp, Hpred, Hv.
    eapply (called_first_after _ _ _ _ _ _ [EIf a slots attrs (st_heap st)]);
      [|by apply Forall_singleton|
       apply (own_handler_called_first intent _ _ _ _
                (after_if st a slots attrs h1))].
    done.
Qed.

(** ** An [if] function that throws *)

(** X9: an [if] function that throws.  What the [if] function of the
    action found throws is what the dispatch throws; nothing was caught,
    no handler was called and [done] was not: the [if] call is the only
    call made, and the heap is the one the function left. *)
Theorem throwing_if_aborts_dispatch app data handlers st data1 attrs st1
    i (intent : Intent) a p e h1 :
  rejectsAppId app (applicationId (s_application (session data))) = false →
  sessionBootstrap data st = (Ok (data1, attrs), st1) →
  r_type (request data) = "IntentRequest" →
  r_intent (request data) = Some i →
  intents app !! i_name i = Some intent →
  actions app ≠ [] →
  findAction app (st_heap st1) attrs intent = Some a →
  a_if a = Some p →
  p (i_slots i) attrs (st_heap st1) = (Throw e, h1) →
  handleRequest app data handlers st
  = (Throw e, after_if st1 a (i_slots i) attrs h1).
Proof.
  intros Hrej Hboot Hty Hi Hintent Hne%actions_nonempty_length Hfind Hif Hp.
  rewrite (handleRequest_intent _ _ _ _ _ _ _ _ _ Hrej Hboot Hty Hi
             (intentsGet_registered _ _ _ Hintent)).
  rewrite checkActionsAndHandle_run. cbv zeta.
  by rewrite Hne, Hfind, Hif, Hp.
Qed.

(** ** A session that brings no [previousIntent] *)

Lemma find_never {A} (f : A → bool) (l : list A) :
  (∀ a, f a = false) → List.find f l = None.
Proof.
  intros Hf. induction l as [|x l IH]; simpl; [done|]. by rewrite Hf.
Qed.

(** X14: a session that brings no [previousIntent].  When
    [previousIntent] of the attributes is not a string (it is [undefined]
    for a continued session whose request carries no attributes), no
    action is found by its [from]: the action found is the first one from
    ["*"] to the intent, if any. *)
Theorem findAction_without_previousIntent app h attrs (intent : IntentValue) :
  (∀ s, getv h (VObj attrs) previousIntent ≠ VStr s) →
  findAction app h attrs intent = _find (actions app) (VStr "*") (name_of intent).
Proof.
  intros Hprev. unfold findAction, _find. cbv zeta.
  assert (∀ to, List.find (matches (getv h (VObj attrs) previousIntent) to) (actions app)
                = None) as Hnone.
  { intros to. apply find_never. intros a. unfold matches.
    rewrite bool_decide_eq_false_2; [done|]. intros Heq. by apply (Hprev (a_from a)). }
  by rewrite !Hnone.
Qed.

(** ** The order of the validations *)

Lemma rejectsAppId_accepts app data :
  ¬ invalidApplicationId app data →
  rejectsAppId app (applicationId (s_application (session data))) = false.
Proof.
  intros Hvalid. destruct (rejectsAppId app _) eqn:Hrej; [|done].
  destruct Hvalid. unfold rejectsAppId in Hrej.
  destruct (options app) as [o|] eqn:Ho; [|done].
  destruct (ids o) as [l|] eqn:Hl; [|done].
  apply andb_true_iff in Hrej as [Hlen Hnotin].
  exists o, l. split_and!; [done..| |].
  - intros ->. done.
  - apply negb_true_iff, bool_decide_eq_false in Hnotin. done.
Qed.

(** X12: the order of the validations.  The application id is checked
    first, before anything is written: a refused id gives the error about
    the id, whatever else is wrong with the request, and leaves the state
    as it was.  The intent and the request type are checked after the
    session bootstrap: an unsupported type, and an intent name that is
    neither registered nor a member of [Object.prototype], give their own
    error and leave the state the bootstrap made, in which a new session
    has its attributes allocated and nothing was called. *)
Theorem validation_order app data handlers st :
  (invalidApplicationId app data →
   handleRequest app data handlers st
   = (Throw (Parsed (parseError (mkError
        ("Application id: '" +:+ applicationId (s_application (session data))
         +:+ "' is not valid")))), st)) ∧
  (¬ invalidApplicationId app data → unsupportedRequest data →
   handleRequest app data handlers st
   = (Throw (Parsed (parseError (mkError
        ("Unsupported request: '" +:+ r_type (request data) +:+ "'")))),
      (sessionBootstrap data st).2)) ∧
  (¬ invalidApplicationId app data →
   ∀ i, r_type (request data) = "IntentRequest" →
        r_intent (request data) = Some i →
        intents app !! i_name i = None →
        inheritedMember (i_name i) = None →
        handleRequest app data handlers st
        = (Throw (Parsed (parseError (mkError
             ("Nonexistent intent: '" +:+ i_name i +:+ "'")))),
           (sessionBootstrap data st).2)) ∧
  st_trace (sessionBootstrap data st).2 = st_trace st ∧
  st_pending (sessionBootstrap data st).2 = st_pending st.
Proof.
  split_and!.
  - intros Hid. rewrite handleRequest_run. cbv zeta.
    by rewrite (rejectsAppId_invalid _ _ Hid).
  - intros Hvalid (Hl & Hi & He). rewrite handleRequest_run. cbv zeta.
    rewrite (rejectsAppId_accepts _ _ Hvalid).
    destruct (sessionBootstrap data st) as [r st1] eqn:Hboot.
    destruct (sessionBootstrap_trace _ _ _ _ Hboot) as (_ & _ & [data1 attrs] & ->).
    rewrite (sessionBootstrap_request _ _ _ _ _ Hboot).
    apply String.eqb_neq in Hl, Hi, He. by rewrite Hl, Hi, He.
  - intros Hvalid i Hty Hi Hnone Hproto. rewrite handleRequest_run. cbv zeta.
    rewrite (rejectsAppId_accepts _ _ Hvalid).
    destruct (sessionBootstrap data st) as [r st1] eqn:Hboot.
    destruct (sessionBootstrap_trace _ _ _ _ Hboot) as (_ & _ & [data1 attrs] & ->).
    rewrite (sessionBootstrap_request _ _ _ _ _ Hboot).
    rewrite Hty, Hi. simpl. unfold intentsGet. by rewrite Hnone, Hproto.
  - destruct (sessionBootstrap data st) as [r st1] eqn:Hboot.
    by destruct (sessionBootstrap_trace _ _ _ _ Hboot) as (? & _ & _).
  - destruct (sessionBootstrap data st) as [r st1] eqn:Hboot.
    by destruct (sessionBootstrap_trace _ _ _ _ Hboot) as (_ & ? & _).
Qed.

(** ** Requests that are not intents *)

(** X13: the start and the end of a session.  For a [LaunchRequest] the
    first thing the pipeline does to the outside is to call
    [handlers.onStart], for a [SessionEndedRequest] [handlers.onEnd],
    whatever the actions of the application and whatever intent and slots
    the request may hold, and it calls no other handler: what follows are
    calls of [done].  The handler is called with a new empty object
    as slots, the attributes and the request, and the callback when it
    declares three parameters or more; in the heap of the call every
    object reads as the session bootstrap left it, so that
    [previousIntent] of the attributes is what the request brought. *)
Theorem launch_and_end_bypass_the_actions app data handlers st data1 attrs st1 f :
  rejectsAppId app (applicationId (s_application (session data))) = false →
  sessionBootstrap data st = (Ok (data1, attrs), st1) →
  (∀ l, s_new (session data) = false → s_attributes (session data) = Some l →
        is_Some (st_heap st !! l)) →
  (r_type (request data) = "LaunchRequest" ∧ f = onStart handlers) ∨
  (r_type (request data) = "SessionEndedRequest" ∧ f = onEnd handlers) →
  ∃ sl tail hc rest,
    st_trace (handleRequest app data handlers st).2
    = st_trace st
      ++ ECall f (AVal (VObj sl) :: AVal (VObj attrs) :: AData data1 :: tail) hc
      :: rest ∧
    Forall is_done_call rest ∧
    tail = (if (h_length f <? 3)%nat then [] else [ACallback]) ∧
    st_heap st1 !! sl = None ∧
    hc !! sl = Some ∅ ∧
    getv hc (VObj attrs) previousIntent = carriedPreviousIntent data (st_heap st) ∧
    (∀ l k, is_Some (st_heap st1 !! l) →
            getv hc (VObj l) k = getv (st_heap st1) (VObj l) k).
Proof.
  intros Hrej Hboot Hin Hty.
  destruct (sessionBootstrap_facts _ _ _ _ _ Hboot Hin) as (Hreq & Htr & _ & HP).
  assert (handleRequest app data handlers st = callHandler f None attrs app data1 st1)
    as ->.
  { rewrite handleRequest_run. cbv zeta. rewrite Hrej, Hboot, Hreq.
    by destruct Hty as [[-> ->]|[-> ->]]. }
  destruct (callHandler_arguments f None attrs app data1 st1)
    as (tail & rest & Hrest & Htail & Hdone).
  destruct (callHeap_slots st1 None) as [Hfresh Hnew].
  exists (slotsLoc st1 None), tail, (callHeap st1 None), rest.
  split_and!; [by rewrite Hrest, Htr|done|done|done|done| |].
  - by apply callHeap_previousIntent.
  - intros l k Hl. by apply callHeap_frame.
Qed.

(** ** The calling convention, run *)

(** X15: the answer of a synchronous handler.  A handler with fewer
    than three parameters is called with the slots, the attributes and the
    request, and no callback.  When it returns options from which a
    response is built, that response is handed to [done] at once: the call
    of the handler and the call of [done] are all that [callHandler] does
    to the outside. *)
Theorem sync_answer_is_the_response f slots attrs app data st o h2 resp st' :
  (h_length f < 3)%nat →
  let args := syncArgs st slots attrs data in
  h_body f args (callHeap st slots) = HReturn o h2 →
  createResponse o (slotsLoc st slots) attrs app
    (with_heap (called st slots f args) h2) = (Ok resp, st') →
  (ACallback ∉ args) ∧
  callHandler f slots attrs app data st
  = (Ok tt,
     {| st_heap := st_heap st';
        st_trace := st_trace st ++ [ECall f args (callHeap st slots);
                                    EDone resp (st_heap st')];
        st_pending := st_pending st |}).
Proof.
  intros Hlen%Nat.ltb_lt args Hbody Hcreate. split.
  - unfold args, syncArgs. intros Hin.
    repeat (apply elem_of_cons in Hin as [Hin|Hin]; [done|]).
    by apply elem_of_nil in Hin.
  - apply (callHandler_sync_return _ _ _ _ _ _ o h2); done.
Qed.

(** X16: the answer of an asynchronous handler.  A handler with three
    parameters or more is called with the callback as fourth argument.
    When it calls that argument during the call, with options from which a
    response is built, the response is handed to [done] then, before the
    handler goes on. *)
Theorem callback_answer_is_the_response f slots attrs app data st o h2 k resp st' :
  (3 ≤ h_length f)%nat →
  let args := asyncArgs st slots attrs data in
  h_body f args (callHeap st slots) = HFire o h2 k →
  createResponse o (slotsLoc st slots) attrs app
    (with_heap (called st slots f args) h2) = (Ok resp, st') →
  args !! 3 = Some ACallback ∧
  ∃ rest,
    st_trace (callHandler f slots attrs app data st).2
    = st_trace st ++ ECall f args (callHeap st slots)
                  :: EDone resp (st_heap st') :: rest ∧
    Forall is_done_call rest.
Proof.
  intros Hlen args Hbody Hcreate.
  assert ((h_length f <? 3)%nat = false) as Hlen' by (apply Nat.ltb_ge; lia).
  pose proof (createResponse_writes o (slotsLoc st slots) attrs app
                (with_heap (called st slots f args) h2)) as (Ht & Hp & _).
  rewrite Hcreate in Ht, Hp. simpl in Ht, Hp.
  split; [done|].
  rewrite callHandler_async by done. cbv zeta. fold args. rewrite Hbody. simpl.
  rewrite optionsReady_run. simpl. rewrite Hcreate.
  match goal with
  | |- context [run ?cb ?p ?s] =>
      destruct (run_trace cb p s) as (evs & Hevs & Hdone);
      destruct (run cb p s) as [[x|e] st3]
  end; simpl in Hevs |- *; exists evs; (split; [|done]);
    rewrite Hevs, Ht; by rewrite <- !app_assoc.
Qed.

(** X17: an answer in a later turn.  When an asynchronous handler
    returns having scheduled a continuation, [callHandler] has called the
    handler and nothing else: no response is built.  When the
    continuation, in its turn of the event loop, calls the callback with
    options from which a response is built, the response is handed to
    [done] in that turn. *)
Theorem scheduled_callback_answers_in_its_turn f slots attrs app data st v h2 k
    o h3 k' resp st' :
  (3 ≤ h_length f)%nat →
  st_pending st = [] →
  let args := asyncArgs st slots attrs data in
  let called_trace := st_trace st ++ [ECall f args (callHeap st slots)] in
  h_body f args (callHeap st slots) = HLater v h2 k →
  k h2 = HFire o h3 k' →
  createResponse o (slotsLoc st slots) attrs app
    {| st_heap := h3; st_trace := called_trace; st_pending := [] |} = (Ok resp, st') →
  st_trace (callHandler f slots attrs app data st).2 = called_trace ∧
  ∃ rest,
    st_trace (turns 1 (callHandler f slots attrs app data st).2)
    = called_trace ++ EDone resp (st_heap st') :: rest ∧
    Forall is_done_call rest.
Proof.
  intros Hlen Hidle args called_trace Hbody Hk Hcreate.
  assert ((h_length f <? 3)%nat = false) as Hlen' by (apply Nat.ltb_ge; lia).
  pose proof (createResponse_writes o (slotsLoc st slots) attrs app
                {| st_heap := h3; st_trace := called_trace; st_pending := [] |})
    as (Ht & Hp & _).
  rewrite Hcreate in Ht, Hp. simpl in Ht, Hp.
  rewrite callHandler_async by done. cbv zeta. fold args. rewrite Hbody. simpl.
  split; [done|].
  unfold tick. simpl. rewrite Hidle. simpl. rewrite Hk. unfold bind. simpl.
  rewrite optionsReady_run. unfold with_heap. simpl. fold called_trace.
  rewrite Hcreate.
  match goal with
  | |- context [run ?cb ?p ?s] =>
      destruct (run_trace cb p s) as (evs & Hevs & Hdone);
      destruct (run cb p s) as [[x|e] st3]
  end; simpl in Hevs |- *; exists evs; (split; [|done]);
    rewrite Hevs, Ht; by rewrite <- !app_assoc.
Qed.

(** ** Synchronous handlers answer at most once *)

Lemma responses_app tr1 tr2 : responses (tr1 ++ tr2) = responses tr1 ++ responses tr2.
Proof. apply omap_app. Qed.

Lemma run_without_callback cb p st :
  cb = None →
  responses (st_trace (run cb p st).2) = responses (st_trace st) ∧
  ∃ ts, st_pending (run cb p st).2 = st_pending st ++ ts ∧ Forall cannot_answer ts.
Proof.
  intros ->. revert st.
  induction p as [v h|e h|o h k IH|v h k IH]; intros st; simpl.
  - split; [done|]. exists []. by rewrite app_nil_r.
  - split; [done|]. exists []. by rewrite app_nil_r.
  - apply (IH (Throw TypeError) h (with_heap st h)).
  - split; [done|]. eexists. split; [done|]. by apply Forall_singleton.
Qed.

Lemma optionsReady_answers_once c o st :
  st_pending (optionsReady c o st).2 = st_pending st ∧
  ∃ rs, responses (st_trace (optionsReady c o st).2) = responses (st_trace st) ++ rs ∧
        (length rs ≤ 1)%nat.
Proof.
  unfold optionsReady, bind.
  pose proof (createResponse_writes o (c_slots c) (c_attrs c) (c_app c) st)
    as (Ht & Hp & _).
  destruct (createResponse _ _ _ _ st) as [[r|e] st1]; simpl in *.
  - split; [done|]. exists [r]. rewrite Ht, responses_app. split; [done|]. simpl. lia.
  - split; [done|]. exists []. rewrite Ht, app_nil_r. split; [done|]. simpl. lia.
Qed.

Lemma tick_without_callbacks st :
  Forall cannot_answer (st_pending st) →
  responses (st_trace (tick st).2) = responses (st_trace st) ∧
  Forall cannot_answer (st_pending (tick st).2).
Proof.
  intros Hall. unfold tick.
  destruct (st_pending st) as [|t ts] eqn:Hpending; simpl.
  { split; [done|]. by rewrite Hpending. }
  apply Forall_cons in Hall as [Ht Hts].
  destruct (run_without_callback (t_callback t) (t_body t (st_heap st))
              {| st_heap := st_heap st; st_trace := st_trace st; st_pending := ts |} Ht)
    as (Hresp & new & Hnew & Hquiet).
  unfold bind.
  destruct (run (t_callback t) _ _) as [[v|e] st1]; simpl in *;
    (split; [done|]; rewrite Hnew; by apply Forall_app).
Qed.

Lemma turns_without_callbacks n st :
  Forall cannot_answer (st_pending st) →
  responses (st_trace (turns n st)) = responses (st_trace st).
Proof.
  revert st. induction n as [|n IH]; intros st Hall; simpl; [done|].
  destruct (tick_without_callbacks st Hall) as [Hresp Hall'].
  by rewrite IH.
Qed.

(** X10: a synchronous handler answers at most once.  A handler with
    fewer than three parameters is given no callback, so whatever it does,
    calls its missing fourth argument or schedules work for later, [done]
    is called at most once for the request: once if it returns and a
    response is built from what it returned, and never in a later turn. *)
Theorem sync_handler_answers_at_most_once f slots attrs app data st n :
  (h_length f < 3)%nat →
  Forall cannot_answer (st_pending st) →
  ∃ rs,
    responses (st_trace (turns n (callHandler f slots attrs app data st).2))
    = responses (st_trace st) ++ rs ∧
    (length rs ≤ 1)%nat.
Proof.
  intros Hlen%Nat.ltb_lt Hall. rewrite callHandler_sync by done. cbv zeta.
  set (args := syncArgs st slots attrs data).
  destruct (run_without_callback None (h_body f args (callHeap st slots))
              (called st slots f args) eq_refl) as (Hresp & new & Hnew & Hquiet).
  assert (responses (st_trace (called st slots f args)) = responses (st_trace st))
    as Hcalled.
  { simpl. rewrite responses_app. simpl. by rewrite app_nil_r. }
  assert (Forall cannot_answer (st_pending (run None (h_body f args (callHeap st slots))
                                              (called st slots f args)).2)) as Hall'.
  { rewrite Hnew. by apply Forall_app. }
  destruct (run None _ _) as [[o|e] st2]; simpl in *.
  - destruct (optionsReady_answers_once (closureOf st slots attrs app) o st2)
      as (Hp & rs & Hrs & Hone).
    exists rs. rewrite turns_without_callbacks by (by rewrite Hp).
    split; [|done]. by rewrite Hrs, Hresp, Hcalled.
  - exists []. rewrite turns_without_callbacks by done.
    rewrite app_nil_r. split; [|simpl; lia]. by rewrite Hresp, Hcalled.
Qed.

(** ** Building the response twice *)

Lemma stores_heap_set h l k v : stores (heap_set h l k v) l k v.
Proof.
  unfold stores, heap_set. eexists. rewrite lookup_insert_eq.
  split; [done|]. apply lookup_insert_eq.
Qed.

Lemma stores_heap_set_other h l k v l' k' v' :
  k ≠ k' → stores h l k v → stores (heap_set h l' k' v') l k v.
Proof.
  intros Hk (o & Hl & Ho). unfold stores, heap_set, obj_at.
  destruct (decide (l' = l)) as [->|Hne].
  - rewrite lookup_insert_eq, Hl. simpl. eexists. split; [done|].
    by rewrite lookup_insert_ne.
  - rewrite lookup_insert_ne by done. eauto.
Qed.

Lemma heap_set_stored h l k v : stores h l k v → heap_set h l k v = h.
Proof.
  intros (o & Hl & Ho). unfold heap_set, obj_at. rewrite Hl. simpl.
  rewrite (insert_id o k v Ho). by apply insert_id.
Qed.

Lemma with_heap_same st : with_heap st (st_heap st) = st.
Proof. by destruct st. Qed.

Lemma responseSessionAttributes_again lo attrs st sa sta st2 :
  responseSessionAttributes (VObj lo) attrs st = (Ok sa, sta) →
  getv (st_heap st2) (VObj lo) "attrs" = getv (st_heap st) (VObj lo) "attrs" →
  getv (st_heap st2) (VObj attrs) previousIntent
  = getv (st_heap st) (VObj attrs) previousIntent →
  (∀ la, getv (st_heap st) (VObj lo) "attrs" = VObj la →
         stores (st_heap st2) la previousIntent
           (getv (st_heap st) (VObj attrs) previousIntent)) →
  responseSessionAttributes (VObj lo) attrs st2 = (Ok sa, st2).
Proof.
  rewrite !responseSessionAttributes_run. cbv zeta.
  intros Hrun -> -> Hstored.
  destruct (truthy (getv (st_heap st) (VObj lo) "attrs")).
  - destruct (getv (st_heap st) (VObj lo) "attrs") as [| | | | |la]; try done.
    injection Hrun as <- _.
    rewrite heap_set_stored by (by apply Hstored). by rewrite with_heap_same.
  - by injection Hrun as <- _.
Qed.

Lemma responseSessionAttributes_stores lo attrs st sa sta la :
  responseSessionAttributes (VObj lo) attrs st = (Ok sa, sta) →
  getv (st_heap st) (VObj lo) "attrs" = VObj la →
  stores (st_heap sta) la previousIntent (getv (st_heap st) (VObj attrs) previousIntent).
Proof.
  rewrite responseSessionAttributes_run. cbv zeta. intros Hrun Hla.
  rewrite Hla in Hrun. simpl in Hrun. injection Hrun as _ <-. simpl.
  apply stores_heap_set.
Qed.

Lemma createCardObject_stores c st l k v :
  k ≠ "type" → stores (st_heap st) l k v → stores (st_heap (createCardObject c st).2) l k v.
Proof.
  intros Hk Hstored. rewrite createCardObject_run.
  destruct (truthy c); [|done].
  destruct c as [| | | | |lc]; try done.
  destruct (truthy _); [done|]. simpl. by apply stores_heap_set_other.
Qed.

Lemma createCardObject_again c st c' stb st2 :
  createCardObject c st = (Ok c', stb) →
  (∀ lc, c = VObj lc → truthy (getv (st_heap st2) (VObj lc) "type") = true) →
  createCardObject c st2 = (Ok c', st2).
Proof.
  rewrite !createCardObject_run. intros Hrun Hty.
  destruct (truthy c); [|by injection Hrun as <- _].
  destruct c as [| | | | |lc]; try done.
  rewrite (Hty lc eq_refl).
  destruct (truthy (getv (st_heap st) (VObj lc) "type")); by injection Hrun as <- _.
Qed.

Lemma createCardObject_type_truthy lc st c' stb :
  createCardObject (VObj lc) st = (Ok c', stb) →
  truthy (getv (st_heap stb) (VObj lc) "type") = true.
Proof.
  rewrite createCardObject_run. simpl.
  destruct (truthy (getv (st_heap st) (VObj lc) "type")) eqn:Hty;
    intros [= _ <-]; [done|].
  simpl. rewrite getv_heap_set. by rewrite decide_True.
Qed.

(** X11: building the response twice.  When [createResponse] has built
    a response from options that are an object, building it again from the
    same options, in the state the first time left, builds the same
    response and changes nothing: what the first time wrote ([previousIntent]
    on the supplied attributes, the default [type] on the card) is
    there.  A callback called twice hands [done] the same response twice. *)
Theorem createResponse_twice lo slots attrs app st resp st1 :
  createResponse (VObj lo) slots attrs app st = (Ok resp, st1) →
  createResponse (VObj lo) slots attrs app st1 = (Ok resp, st1).
Proof.
  intros Hrun.
  pose proof (createResponse_object_previousIntent lo slots attrs app st) as Hprev.
  cbv zeta in Hprev. rewrite Hrun in Hprev. destruct Hprev as [Hprev _].
  rewrite createResponse_object in Hrun |- *. cbv zeta in Hrun |- *.
  pose proof (λ v k, responseSessionAttributes_keeps lo attrs st v k) as Hk.
  destruct (responseSessionAttributes (VObj lo) attrs st) as [[sa|e] sta] eqn:Hsa;
    [|done].
  simpl in Hk.
  pose proof (λ v k, createCardObject_keeps (getv (st_heap sta) (VObj lo) "card")
                       sta v k) as Hk'.
  pose proof (λ la, createCardObject_stores (getv (st_heap sta) (VObj lo) "card")
                      sta la previousIntent
                      (getv (st_heap st) (VObj attrs) previousIntent)
                      ltac:(done)) as Hstores.
  destruct (createCardObject _ sta) as [[c|e] stb] eqn:Hcard; [|done].
  simpl in Hk', Hstores. injection Hrun as <- <-.
  assert (∀ k, k ≠ "type" → k ≠ previousIntent →
               getv (st_heap stb) (VObj lo) k = getv (st_heap sta) (VObj lo) k ∧
               getv (st_heap sta) (VObj lo) k = getv (st_heap st) (VObj lo) k) as Hsame.
  { intros k Ht Hp. split; [by apply Hk'|by apply Hk]. }
  rewrite (responseSessionAttributes_again lo attrs st sa sta stb Hsa).
  - rewrite (proj1 (Hsame "card" ltac:(done) ltac:(done))).
    rewrite (createCardObject_again _ _ _ _ stb Hcard).
    + destruct (Hsame "text" ltac:(done) ltac:(done)) as [-> ->].
      destruct (Hsame "ssml" ltac:(done) ltac:(done)) as [-> ->].
      destruct (Hsame "end" ltac:(done) ltac:(done)) as [-> _].
      by destruct (Hsame "reprompt" ltac:(done) ltac:(done)) as [-> _].
    + intros lc Hlc. rewrite Hlc in Hcard.
      by apply (createCardObject_type_truthy lc sta c).
  - destruct (Hsame "attrs" ltac:(done) ltac:(done)) as [-> ->]. done.
  - done.
  - intros la Hla. apply Hstores.
    by apply (responseSessionAttributes_stores lo attrs st sa).
Qed.

End Pipeline.

Arguments Ok {PErr A} a.
Arguments Throw {PErr A} e.

(** * The sample application

    The properties above at the sample application, and the cases in
    which a claim about the pipeline fails.  Errors are kept as they are
    ([keepError] stands for [parseError]): the sample states are read at
    that type. *)

Abbreviation Idle := (idle (PErr:=Error)).
Abbreviation AfterYes := (after_yes (PErr:=Error)).
Abbreviation SuppliedAttrs := (with_supplied_attrs (PErr:=Error)).
Abbreviation WithCard := (with_card (PErr:=Error)).

Example yes_request_response :
  responses (st_trace (handleRequest keepError sample_app yes_request
                         sample_handlers Idle).2)
  = [ {| resp_version := VStr "1.0.0";
         sessionAttributes := VObj 0;
         response := {| outputSpeech := PlainText (VStr "Great");
                        shouldEndSession := VBool true;
                        reprompt := None;
                        card := None |} |} ].
Proof. vm_compute. reflexivity. Qed.

Example no_request_is_refused :
  responses (st_trace (handleRequest keepError sample_app no_request
                         sample_handlers AfterYes).2)
  = [ {| resp_version := VStr "1.0.0";
         sessionAttributes := VObj 0;
         response := {| outputSpeech := PlainText (VStr "Not now");
                        shouldEndSession := VBool true;
                        reprompt := None;
                        card := None |} |} ].
Proof. vm_compute. reflexivity. Qed.

(** Without actions, the asynchronous handler of [No] runs: the dispatch
    hands nothing to [done], the next turn does. *)
Example no_request_answers_later :
  let app := {| intents := intents sample_app; actions := []; options := None |} in
  let st := (handleRequest keepError app no_request sample_handlers AfterYes).2 in
  responses (st_trace st) = [] ∧
  length (st_pending st) = 1 ∧
  (outputSpeech ∘ response <$> responses (st_trace (turns 1 st)))
  = [PlainText (VStr "Bye")] ∧
  getv (st_heap (turns 1 st)) (VObj 0) previousIntent = VStr "No".
Proof. vm_compute. by split_and!. Qed.

Lemma yes_request_bootstrap :
  sessionBootstrap yes_request Idle
  = (Ok (intentRequest true (Some 0) "amzn1.app.1" "Yes" (Some answer), 0),
     with_heap Idle {[ 0 := {[ previousIntent := VStr "@start" ]} ]}).
Proof. reflexivity. Qed.

Lemma no_request_bootstrap :
  sessionBootstrap no_request AfterYes = (Ok (no_request, 0), AfterYes).
Proof. reflexivity. Qed.

(** C1 at the sample application: the first [Yes] of a new session. *)
Lemma previousIntent_after_yes_witness :
  handler_ran (says "Great") 0 (VStr "Yes") []
    (turns 1 (handleRequest keepError sample_app yes_request sample_handlers Idle).2) ∧
  (sessionAttributes <$>
     responses (st_trace (turns 1 (handleRequest keepError sample_app yes_request
                                     sample_handlers Idle).2))) = [VObj 0].
Proof.
  split; [|reflexivity].
  destruct (previousIntent_reflects_last_handled_intent keepError sample_app
              yes_request sample_handlers Idle 1 _ _ _
              sample_keepsPreviousIntent eq_refl
              ltac:(intros l Hnew; discriminate Hnew)
              eq_refl yes_request_bootstrap) as (_ & _ & _ & Hintent).
  destruct (Hintent {| i_name := "Yes"; i_slots := Some answer |} yesIntent
              eq_refl eq_refl eq_refl) as [Hown _].
  apply Hown. right. exists startToYes. split; [reflexivity|by left].
Defined.

(** C1 as it is worded does not hold: a handler may write
    [previousIntent] itself.  The handler of [Yes] ran, it is the intent's
    own handler and the only one called, and the one response handed to
    [done] carries the attributes, on which [previousIntent] reads
    ["Other"] when the response is handed over and afterwards: neither
    the name of the intent handled nor ["@start"]. *)
Lemma handler_overwrites_previousIntent :
  intents (PErr:=Error) overwriting_app !! "Yes"
  = Some {| intent_name := "Yes"; intent_handler := overwrites |} ∧
  callees (st_trace (handleRequest keepError overwriting_app yes_request
                       sample_handlers Idle).2) = [overwrites] ∧
  (sessionAttributes <$>
     responses (st_trace (handleRequest keepError overwriting_app yes_request
                            sample_handlers Idle).2)) = [VObj 0] ∧
  answeredPreviousIntents
    (st_trace (handleRequest keepError overwriting_app yes_request
                 sample_handlers Idle).2) = [VStr "Other"] ∧
  getv (st_heap (handleRequest keepError overwriting_app yes_request
                   sample_handlers Idle).2) (VObj 0) previousIntent = VStr "Other".
Proof. split_and!; reflexivity. Qed.

(** C3 fails on the code for an intent named as a member of
    [Object.prototype]: [constructor] is not registered, yet the request
    is not refused.  The read of [app.intents] gives the function
    [Object], no action leads to an intent of that name,
    [handlers.defaultActionFail] is called and its answer is handed to
    [done]. *)
Lemma inherited_intent_name_is_dispatched :
  intents (PErr:=Error) sample_app !! "constructor" = None ∧
  (handleRequest keepError sample_app constructor_request sample_handlers AfterYes).1
  = Ok tt ∧
  callees (st_trace (handleRequest keepError sample_app constructor_request
                       sample_handlers AfterYes).2)
  = [defaultActionFail sample_handlers] ∧
  responses (st_trace (handleRequest keepError sample_app constructor_request
                         sample_handlers AfterYes).2)
  = [ {| resp_version := VStr "1.0.0";
         sessionAttributes := VObj 0;
         response := {| outputSpeech := PlainText (VStr "Sorry");
                        shouldEndSession := VBool true;
                        reprompt := None;
                        card := None |} |} ].
Proof. split_and!; reflexivity. Qed.

(** C4 at the sample application: [No] after [Yes] is refused by the [if]
    of the transition, whose [fail] handler is called next. *)
Lemma no_after_yes_falls_back_witness :
  falls_back (says "Not now") 0 (st_heap AfterYes)
    (st_trace AfterYes ++ [EIf yesToNo (Some answer) 0 (st_heap AfterYes)])
    (checkActionsAndHandle noIntent (Some answer) 0 sample_app sample_handlers
       no_request AfterYes).2.
Proof.
  destruct (fallback_handler_keeps_previousIntent noIntent (Some answer) 0
              sample_app sample_handlers no_request AfterYes ltac:(discriminate))
    as [Hif _].
  destruct (Hif yesToNo refuses (VBool false) answer (st_heap AfterYes)
              eq_refl eq_refl eq_refl eq_refl) as [Hfail _].
  apply (Hfail (says "Not now") eq_refl).
Defined.


(** C6 at a response with supplied attributes. *)
Lemma supplied_attrs_witness :
  ∃ resp st',
    createResponse (VObj 1) 3 0 sample_app SuppliedAttrs = (Ok resp, st') ∧
    sessionAttributes resp = VObj 2 ∧
    getv (st_heap st') (VObj 2) previousIntent = VStr "Yes" ∧
    getv (st_heap st') (VObj 2) "score" = VNum 3.
Proof.
  destruct (createResponse_session_attributes (VObj 1) 3 0 sample_app
              SuppliedAttrs (or_introl eq_refl)) as [Hsupplied _].
  destruct (Hsupplied 2 eq_refl ltac:(by eexists))
    as (resp & st' & Hrun & Hsa & Hprev & Hother).
  exists resp, st'. split_and!; [done|done|exact Hprev|].
  rewrite Hother; [reflexivity|discriminate|].
  intros [Hcard _]. discriminate Hcard.
Defined.

(** C8 as it is worded does not hold: the synthesis writes on objects it
    receives.  A card without [type] gets [type: "Simple"] written on it,
    and supplied attributes get [previousIntent] overwritten. *)
Lemma synthesis_writes_on_its_inputs :
  (st_heap WithCard !! 2 = Some {[ "text" := VStr "Body" ]} ∧
   st_heap (createResponse (VObj 1) 3 0 sample_app WithCard).2 !! 2
   = Some {[ "text" := VStr "Body"; "type" := VStr "Simple" ]}) ∧
  (getv (st_heap SuppliedAttrs) (VObj 2) previousIntent = VStr "Spoofed" ∧
   getv (st_heap (createResponse (VObj 1) 3 0 sample_app SuppliedAttrs).2)
     (VObj 2) previousIntent = VStr "Yes").
Proof. vm_compute. by split_and!. Qed.

(** C9 fails on the code: with options that hold no version the response
    has [version: undefined], not the default. *)
Lemma version_undefined_for_options_without_version :
  (createResponse (VStr "Hello") 1 0 ids_only_app AfterYes).1
  = Ok {| resp_version := VUndef;
          sessionAttributes := VObj 0;
          response := {| outputSpeech := PlainText (VStr "Hello");
                         shouldEndSession := VBool true;
                         reprompt := None;
                         card := None |} |}.
Proof. vm_compute. reflexivity. Qed.


(** * The further properties at the sample application *)

Abbreviation WithSsml := (with_ssml (PErr:=Error)).
Abbreviation WithBadCard := (with_bad_card (PErr:=Error)).
Abbreviation NoHistory := (no_history (PErr:=Error)).
Abbreviation LenientApp := (lenient_app (PErr:=Error)).

(** X1 at an answer in SSML with a reprompt. *)
Lemma ssml_answer_witness :
  ∃ resp st',
    createResponse (VObj 1) 3 0 sample_app WithSsml = (Ok resp, st') ∧
    outputSpeech (response resp) = SSML (VStr "<speak>Hi</speak>") ∧
    reprompt (response resp) = Some (SSML (VStr "<speak>More?</speak>")).
Proof.
  eexists _, _. split; [vm_compute; reflexivity|].
  apply (response_speech_follows_ssml_flag (VObj 1) 3 0 sample_app WithSsml _ _
           eq_refl).
  reflexivity.
Defined.

(** X2 at an answer that keeps the session open. *)
Lemma open_session_witness :
  ∃ resp st',
    createResponse (VObj 1) 3 0 sample_app WithSsml = (Ok resp, st') ∧
    shouldEndSession (response resp) = VBool false.
Proof.
  eexists _, _. split; [vm_compute; reflexivity|].
  apply (response_ends_session_unless_told (VObj 1) 3 0 sample_app WithSsml _ _
           eq_refl).
  discriminate.
Defined.

(** X3 at a card without [type]. *)
Lemma card_without_type_witness :
  ∃ resp st',
    createResponse (VObj 1) 3 0 sample_app WithCard = (Ok resp, st') ∧
    card (response resp) = Some (VObj 2) ∧
    getv (st_heap st') (VObj 2) "type" = VStr "Simple".
Proof.
  eexists _, _. split; [vm_compute; reflexivity|].
  destruct (response_card_gets_default_type (VObj 1) 3 0 sample_app WithCard _ _
              eq_refl) as [_ Hcard].
  destruct (Hcard 2 eq_refl) as (Hc & Hty & _). split; [exact Hc|exact Hty].
Defined.

(** X5 at a handler with an empty body. *)
Lemma silent_handler_witness :
  callHandler silent None 0 sample_app no_request AfterYes
  = (Throw TypeError,
     with_heap (called AfterYes None silent (syncArgs AfterYes None 0 no_request))
       (callHeap AfterYes None)).
Proof.
  apply (handler_returning_nothing_throws silent None 0 sample_app no_request
           AfterYes VUndef (callHeap AfterYes None)).
  - simpl. lia.
  - reflexivity.
  - by left.
Defined.

(** X6 at a card that is a string: [previousIntent] is on the supplied
    attributes when the card throws. *)
Lemma bad_card_witness :
  createResponse (VObj 1) 3 0 sample_app WithBadCard
  = (Throw TypeError,
     with_heap WithBadCard
       (heap_set (st_heap WithBadCard) 2 previousIntent (VStr "Yes"))).
Proof.
  apply (createResponse_throws_on_card_after_writing_attrs 1 3 0 sample_app
           WithBadCard 2).
  - reflexivity.
  - reflexivity.
  - intros l Hl. discriminate Hl.
Defined.

(** X8 at the first [Yes] of a session: the handler of [Yes] is called
    with [previousIntent = "Yes"], not ["@start"]. *)
Lemma yes_handler_sees_yes_witness :
  called_first (says "Great") 0 (VStr "Yes") []
    (checkActionsAndHandle yesIntent (Some answer) 0 sample_app sample_handlers
       yes_request
       (with_heap Idle {[ 0 := {[ previousIntent := VStr "@start" ]} ]})).2.
Proof.
  apply (own_handler_sees_its_own_name yesIntent (Some answer) 0 sample_app
           sample_handlers yes_request
           (with_heap Idle {[ 0 := {[ previousIntent := VStr "@start" ]} ]})).
  right. exists startToYes. split; [reflexivity|by left].
Defined.

(** X9 at an application whose only transition has an [if] that throws. *)
Lemma throwing_if_witness :
  handleRequest keepError throwing_app no_request sample_handlers AfterYes
  = (Throw (AppError (VStr "closed")),
     after_if AfterYes yesToNoThrowing (Some answer) 0 (st_heap AfterYes)).
Proof.
  apply (throwing_if_aborts_dispatch keepError throwing_app no_request
           sample_handlers AfterYes no_request 0 AfterYes
           {| i_name := "No"; i_slots := Some answer |} noIntent yesToNoThrowing
           throws (AppError (VStr "closed")) (st_heap AfterYes)
           eq_refl no_request_bootstrap eq_refl eq_refl eq_refl
           ltac:(discriminate) eq_refl eq_refl eq_refl).
Defined.

(** X10 at a handler that answers by returning and later calls a callback
    it was not given: two turns later one response has been handed over. *)
Lemma late_call_witness :
  ∃ rs,
    responses (st_trace (turns 2 (callHandler callsLate (Some answer) 0 sample_app
                                    no_request AfterYes).2))
    = responses (st_trace AfterYes) ++ rs ∧
    (length rs ≤ 1)%nat.
Proof.
  apply (sync_handler_answers_at_most_once callsLate (Some answer) 0 sample_app
           no_request AfterYes 2).
  - simpl. lia.
  - constructor.
Defined.

(** X11 at a card without [type]: the second time nothing is written. *)
Lemma card_twice_witness :
  ∃ resp st1,
    createResponse (VObj 1) 3 0 sample_app WithCard = (Ok resp, st1) ∧
    createResponse (VObj 1) 3 0 sample_app st1 = (Ok resp, st1).
Proof.
  eexists _, _. split; [vm_compute; reflexivity|].
  apply (createResponse_twice 1 3 0 sample_app WithCard _ _ eq_refl).
Defined.

(** X13 at the first request of a session. *)
Lemma launch_witness :
  ∃ data1 sl tail hc rest,
    st_trace (handleRequest keepError sample_app launch_request sample_handlers
                Idle).2
    = ECall (says "Welcome") (AVal (VObj sl) :: AVal (VObj 0) :: AData data1 :: tail) hc
      :: rest ∧
    Forall is_done_call rest ∧
    tail = [] ∧
    hc !! sl = Some ∅ ∧
    getv hc (VObj 0) previousIntent = VStr "@start".
Proof.
  destruct (launch_and_end_bypass_the_actions keepError sample_app launch_request
              sample_handlers Idle _ 0 _ (says "Welcome")
              eq_refl eq_refl
              ltac:(intros l Hnew; discriminate Hnew)
              (or_introl (conj eq_refl eq_refl)))
    as (sl & tail & hc & rest & Htr & Hdone & Htail & _ & Hnew & Hprev & _).
  eexists _, sl, tail, hc, rest.
  split_and!; [exact Htr|exact Hdone|exact Htail|exact Hnew|exact Hprev].
Defined.

(** X14 at a continued session with empty attributes: the action from
    ["*"] is found. *)
Lemma no_history_witness :
  findAction LenientApp (st_heap NoHistory) 0 yesIntent = Some anyToYes.
Proof.
  rewrite (findAction_without_previousIntent LenientApp (st_heap NoHistory) 0
             yesIntent).
  - reflexivity.
  - intros s Hs. discriminate Hs.
Defined.

(** X15 at a handler that returns a string. *)
Lemma sync_answer_witness :
  ∃ resp st',
    createResponse (VStr "Great") 1 0 sample_app
      (called AfterYes (Some answer) (says "Great")
         (syncArgs AfterYes (Some answer) 0 no_request)) = (Ok resp, st') ∧
    callHandler (says "Great") (Some answer) 0 sample_app no_request AfterYes
    = (Ok tt,
       {| st_heap := st_heap st';
          st_trace := [ECall (says "Great") (syncArgs AfterYes (Some answer) 0 no_request)
                         (callHeap AfterYes (Some answer));
                       EDone resp (st_heap st')];
          st_pending := [] |}).
Proof.
  eexists _, _. split; [vm_compute; reflexivity|].
  apply (sync_answer_is_the_response (says "Great") (Some answer) 0 sample_app
           no_request AfterYes (VStr "Great") (callHeap AfterYes (Some answer)) _ _
           ltac:(simpl; lia) eq_refl eq_refl).
Defined.

(** X16 at a handler that calls back at once. *)
Lemma callback_answer_witness :
  ∃ resp st' rest,
    createResponse (VStr "Here") 1 0 sample_app
      (called AfterYes (Some answer) (answersNow "Here")
         (asyncArgs AfterYes (Some answer) 0 no_request)) = (Ok resp, st') ∧
    st_trace (callHandler (answersNow "Here") (Some answer) 0 sample_app no_request
                AfterYes).2
    = ECall (answersNow "Here") (asyncArgs AfterYes (Some answer) 0 no_request)
        (callHeap AfterYes (Some answer))
      :: EDone resp (st_heap st') :: rest ∧
    Forall is_done_call rest.
Proof.
  destruct (callback_answer_is_the_response (answersNow "Here") (Some answer) 0
              sample_app no_request AfterYes (VStr "Here")
              (callHeap AfterYes (Some answer)) (λ _ h1, HReturn VUndef h1) _ _
              ltac:(simpl; lia) eq_refl eq_refl) as (_ & rest & Hrest).
  eexists _, _, rest. split; [|exact Hrest]. reflexivity.
Defined.

(** X17 at a handler that answers in a later turn. *)
Lemma later_answer_witness :
  ∃ resp (st' : state (PErr:=Error)) rest,
    createResponse (VStr "Bye") 1 0 sample_app
      {| st_heap := callHeap AfterYes (Some answer);
         st_trace := [ECall (answersLater "Bye")
                        (asyncArgs AfterYes (Some answer) 0 no_request)
                        (callHeap AfterYes (Some answer))];
         st_pending := [] |} = (Ok resp, st') ∧
    responses (st_trace (callHandler (answersLater "Bye") (Some answer) 0 sample_app
                           no_request AfterYes).2) = [] ∧
    st_trace (turns 1 (callHandler (answersLater "Bye") (Some answer) 0 sample_app
                         no_request AfterYes).2)
    = ECall (answersLater "Bye") (asyncArgs AfterYes (Some answer) 0 no_request)
        (callHeap AfterYes (Some answer))
      :: EDone resp (st_heap st') :: rest ∧
    Forall is_done_call rest.
Proof.
  destruct (scheduled_callback_answers_in_its_turn (answersLater "Bye") (Some answer)
              0 sample_app no_request AfterYes VUndef (callHeap AfterYes (Some answer))
              (λ h1, HFire (VStr "Bye") h1 (λ _ h2, HReturn VUndef h2))
              (VStr "Bye") (callHeap AfterYes (Some answer))
              (λ _ h2, HReturn VUndef h2) _ _
              ltac:(simpl; lia) eq_refl eq_refl eq_refl eq_refl)
    as (Hcall & rest & Hrest).
  eexists _, _, rest. split; [|split; [by rewrite Hcall|exact Hrest]]. reflexivity.
Defined.
